(** * The frame package: packed RGB decoder and the Snapper capture pipeline

    A shallow embedding of [frame/rgb3.go] and of the Snapper
    (Open / Close / Snap / capture, Match / canFit).

    Go's [int] is taken as the 64-bit signed integer of the usual targets,
    [uint32] as an unsigned 32-bit integer; both are carried by [Z] with the
    wrap-around written out.  A slice is a list of bytes and an index
    outside of it panics, which the embedding renders as [None]. *)

From Stdlib Require Import ZArith List Bool Lia String.
From Stdlib.Init Require Import Byte.
Import ListNotations.
Local Open Scope Z_scope.

(** ** Machine integers *)

Module GoInt.

Definition min_int : Z := - 2 ^ 63.
Definition max_int : Z := 2 ^ 63 - 1.

Definition in_int (z : Z) : Prop := min_int <= z <= max_int.

(** Two's complement reduction of a mathematical integer to [int]. *)
Definition wrap (z : Z) : Z := (z + 2 ^ 63) mod 2 ^ 64 - 2 ^ 63.

Definition add (a b : Z) : Z := wrap (a + b).
Definition mul (a b : Z) : Z := wrap (a * b).

(** [a &^ b], Go's bit clear. *)
Definition andnot (a b : Z) : Z := Z.ldiff a b.

(** [uint32(v)] for an [int] [v], and [int(u)] for a [uint32] [u]. *)
Definition to_uint32 (z : Z) : Z := z mod 2 ^ 32.
Definition of_uint32 (u : Z) : Z := u.

Definition is_uint32 (u : Z) : Prop := 0 <= u < 2 ^ 32.

(** [a - b] on [uint32]. *)
Definition sub32 (a b : Z) : Z := (a - b) mod 2 ^ 32.

End GoInt.

(** ** Slices of bytes *)

Definition len {A : Type} (b : list A) : Z := Z.of_nat (List.length b).

(** [b[i]]; [None] is the run-time panic of an index out of range. *)
Definition at_index (b : list byte) (i : Z) : option byte :=
  if (0 <=? i) && (i <? len b) then nth_error b (Z.to_nat i) else None.

(** ** rgb3.go *)

(** [color.RGBA]. *)
Module color.
Record RGBA : Type := mkRGBA { R : byte; G : byte; B : byte; A : byte }.
End color.

(** [image.Rectangle], as built by [image.Rect(0, 0, w, h)] for the
    dimensions the decoder is given. *)
Module image.
Record Rectangle : Type := Rect { MinX : Z; MinY : Z; MaxX : Z; MaxY : Z }.
End image.

(** The error values this package builds with [fmt.Errorf], and the ones it
    only passes on. *)
Inductive error : Type :=
| WrongFrameLength (exp read : Z)
| UnsupportedFormat (device format : string)
| UnsupportedResolution (device : string) (w h : Z)
| NoFrameReceived
| External (msg : string).

Module rgb3.
Section RGB3.

(** The type of release functions.  A call of a [func()] value is an
    effect; a function that may call some returns, next to its result,
    the release functions it has called, in call order. *)
Variable Rel : Type.

Record fRGB3 : Type := mkfRGB3 {
  b : image.Rectangle;
  width : Z;
  frame : list byte;
  release : option Rel
}.

(** The two locals [size] and [bw] of [newFramerRGB3], for the value
    [padded] of the flag [*padded]. *)
Definition geometryRGB3 (padded : bool) (w h : Z) : Z * Z :=
  if padded then
    let bw := GoInt.andnot (GoInt.add w 31) 31 in
    let size := GoInt.mul (GoInt.mul 3 bw) (GoInt.andnot (GoInt.add h 15) 15) in
    (size, bw)
  else
    let size := GoInt.mul (GoInt.mul 3 h) w in
    (size, 0).

Definition frameRGB3 (size bw w h : Z) (buf : list byte) (rel : option Rel)
  : (option fRGB3 * option error) * list Rel :=
  if negb (len buf =? size) then
    let deferred := match rel with Some r => [r] | None => [] end in
    ((None, Some (WrongFrameLength size (len buf))), deferred)
  else
    ((Some (mkfRGB3 (image.Rect 0 0 w h) bw buf rel), None), []).

Definition newFramerRGB3 (padded : bool) (w h : Z)
  : list byte -> option Rel -> (option fRGB3 * option error) * list Rel :=
  let '(size, bw) := geometryRGB3 padded w h in
  fun buf rel => frameRGB3 size bw w h buf rel.

Definition Bounds (f : fRGB3) : image.Rectangle := b f.

(** The offset [i] computed by [At]. *)
Definition At_offset (f : fRGB3) (x y : Z) : Z :=
  GoInt.add (GoInt.mul (GoInt.mul (width f) y) 3) (GoInt.mul x 3).

Definition At (f : fRGB3) (x y : Z) : option color.RGBA :=
  let i := At_offset f x y in
  match at_index (frame f) i, at_index (frame f) (GoInt.add i 1),
        at_index (frame f) (GoInt.add i 2) with
  | Some r, Some g, Some bl => Some (color.mkRGBA r g bl xff)
  | _, _, _ => None
  end.

Definition Release (f : fRGB3) : list Rel :=
  match release f with
  | Some r => [r]
  | None => []
  end.

End RGB3.

Arguments mkfRGB3 {Rel}.
Arguments b {Rel}.
Arguments width {Rel}.
Arguments frame {Rel}.
Arguments release {Rel}.
Arguments frameRGB3 {Rel}.
Arguments newFramerRGB3 {Rel}.
Arguments Bounds {Rel}.
Arguments At_offset {Rel}.
Arguments At {Rel}.
Arguments Release {Rel}.

End rgb3.

(** ** Match and canFit *)

(** [webcam.FrameSize]; every field is a [uint32]. *)
Record FrameSize : Type := mkFrameSize {
  MinWidth : Z; MaxWidth : Z; StepWidth : Z;
  MinHeight : Z; MaxHeight : Z; StepHeight : Z
}.

(** [&&] and [||] of Go evaluate their right operand only when needed;
    here every operand is a total function, so the value is the same. *)
Definition canFit (min max step val : Z) : bool :=
  if (min =? max) && (step =? 0) && (val =? min) then true
  else negb (step =? 0) && (val >=? min) && (val <=? max)
       && (GoInt.sub32 val min mod step =? 0).

Definition Match (fs : FrameSize) (w h : Z) : bool :=
  canFit (MinWidth fs) (MaxWidth fs) (StepWidth fs) (GoInt.to_uint32 w)
  && canFit (MinHeight fs) (MaxHeight fs) (StepHeight fs) (GoInt.to_uint32 h).

(** ** Rounding and sizes, for the statements *)

(** The least multiple of [m] that is not below [n]. *)
Definition round_up (m n : Z) : Z := m * ((n + m - 1) / m).

(** The space the decoder needs is an [int]. *)
Definition size_fits (padded : bool) (w h : Z) : Prop :=
  if padded then GoInt.in_int (3 * round_up 32 w * round_up 16 h)
  else GoInt.in_int (3 * h * w).

(** ** The Snapper *)

Module snapper.

Definition defaultTimeout : Z := 5.
Definition defaultBuffers : Z := 16.

(** [webcam.PixelFormat] is a [uint32], [FourCC] a string, and a
    [*webcam.Webcam] that is not nil is a handle of the driver. *)
Definition PixelFormat : Type := Z.
Definition FourCC : Type := string.
Definition Webcam : Type := nat.

Record snap : Type := mksnap { frame : list byte; index : Z }.

(** The closure [func() { c.cam.ReleaseFrame(snap.index) }] built by
    [Snap]; it captures the index. *)
Inductive relfn : Type := ReleaseIndex (index : Z).

(** Calls that leave this file: to the driver, to the registry and to
    standard output. *)
Inductive Call : Type :=
| webcam_Open (device : string)
| GetSupportedFormats
| GetSupportedFrameSizes (pf : PixelFormat)
| SetImageFormat (pf : PixelFormat) (w h : Z)
| Printf_asked (pf : PixelFormat) (w h : Z) (npf : PixelFormat) (nw nh : Z)
| GetFramer_call (format : FourCC) (w h stride size : Z)
| SetBufferCount (n : Z)
| SetAutoWhiteBalance (v : bool)
| StartStreaming
| StopStreaming
| webcam_Close
| WaitForFrame (timeout : Z)
| GetFrame
| ReleaseFrame (index : Z).

(** A channel: its capacity, the number of elements it buffers, and
    whether it has been closed.  [c.stop] carries [struct{}] values, and
    [c.stream] has capacity 0: a value sent on it goes from the sender to
    a receiver that waits, so no content needs to be stored. *)
Record chan : Type := mkchan { cap : nat; buffered : nat; closed : bool }.

Definition make (n : nat) : chan := mkchan n 0 false.

(** What the driver answers during one call of [Open]. *)
Record OpenAnswers : Type := mkOpenAnswers {
  open_ans : Webcam + error;
  formats_ans : list (PixelFormat * string);
  sizes_ans : list FrameSize;
  setformat_ans : PixelFormat * Z * Z * Z * Z * option error;
  start_ans : option error
}.

(** What the driver answers to [WaitForFrame] and, after a success, to
    [GetFrame]. *)
Inductive WaitAnswer : Type :=
| TimedOut
| WaitFailed (e : error)
| Completed (got : (list byte * Z) + error).

Section Pipeline.

(** The interface [Frame] and the two functions of frame.go that
    [Open] calls. *)
Variable Frame : Type.

Definition Framer : Type :=
  list byte -> option relfn -> (option Frame * option error) * list relfn.

Variable FourCCToPixelFormat : FourCC -> PixelFormat * option error.
Variable GetFramer : FourCC -> Z -> Z -> Z -> Z -> option Framer * option error.

Record Snapper : Type := mkSnapper {
  cam : option Webcam;
  Timeout : Z;
  Buffers : Z;
  framer : option Framer;
  stop : option chan;
  stream : option chan
}.

Definition NewSnapper : Snapper :=
  mkSnapper None defaultTimeout defaultBuffers None None None.

(** Where the goroutine of the application stands.  It calls [Open],
    [Snap] and [Close] one at a time, and waits inside a call at a
    channel operation only. *)
Inductive cont : Type :=
| ToCaller
| ToOpenBody (device : string) (format : FourCC) (w h : Z)
             (pf : PixelFormat) (ans : OpenAnswers)
| ToOpenReturn (ret : error).

Inductive main_pc : Type :=
| Idle
| InSnap
| InCloseSend (k : cont)
| InCloseRange (k : cont).

(** Where the goroutine started by [go c.capture()] stands; [AtSelect]
    holds the locals [frame] and [index] and the rank of this fetch
    among all fetches. *)
Inductive capture_pc : Type :=
| NotStarted
| AtWait
| AtSelect (got : snap) (n : nat)
| Finished.

Inductive Ret : Type :=
| OpenRet (ret : option error)
| SnapRet (f : option Frame) (e : option error)
| CloseRet.

Inductive fate : Type := ToSnap | ToClose | OnStop | Drop.

Inductive Event : Type :=
| Called (call : Call)
| Returned (r : Ret)
| Fate (n : nat) (f : fate).

Record System : Type := mkSystem {
  c : Snapper;
  main : main_pc;
  capture : capture_pc;
  history : list Event;
  fetched : nat;
  panicked : bool
}.

(** The program with a Snapper just made, whose public fields [Timeout]
    and [Buffers] the application may have set. *)
Definition fresh (timeout buffers : Z) : System :=
  mkSystem (mkSnapper None timeout buffers None None None)
           Idle NotStarted [] 0 false.

Definition init : System := fresh defaultTimeout defaultBuffers.

(** *** Field updates *)

Definition set_cam (v : option Webcam) (s : System) : System :=
  let k := c s in
  mkSystem (mkSnapper v (Timeout k) (Buffers k) (framer k) (stop k) (stream k))
           (main s) (capture s) (history s) (fetched s) (panicked s).

Definition set_framer (v : option Framer) (s : System) : System :=
  let k := c s in
  mkSystem (mkSnapper (cam k) (Timeout k) (Buffers k) v (stop k) (stream k))
           (main s) (capture s) (history s) (fetched s) (panicked s).

Definition set_stop (v : option chan) (s : System) : System :=
  let k := c s in
  mkSystem (mkSnapper (cam k) (Timeout k) (Buffers k) (framer k) v (stream k))
           (main s) (capture s) (history s) (fetched s) (panicked s).

Definition set_stream (v : option chan) (s : System) : System :=
  let k := c s in
  mkSystem (mkSnapper (cam k) (Timeout k) (Buffers k) (framer k) (stop k) v)
           (main s) (capture s) (history s) (fetched s) (panicked s).

Definition set_main (v : main_pc) (s : System) : System :=
  mkSystem (c s) v (capture s) (history s) (fetched s) (panicked s).

Definition set_capture (v : capture_pc) (s : System) : System :=
  mkSystem (c s) (main s) v (history s) (fetched s) (panicked s).

Definition emit (e : Event) (s : System) : System :=
  mkSystem (c s) (main s) (capture s) (history s ++ [e]) (fetched s) (panicked s).

Definition count_fetch (s : System) : System :=
  mkSystem (c s) (main s) (capture s) (history s) (S (fetched s)) (panicked s).

(** An unrecovered panic ends the program. *)
Definition panic (s : System) : System :=
  mkSystem (c s) (main s) (capture s) (history s) (fetched s) true.

(** A method called through [c.cam]; through a nil pointer it panics. *)
Definition on_cam (call : Call) (s : System) : System :=
  match cam (c s) with
  | Some _ => emit (Called call) s
  | None => panic s
  end.

(** [close(ch)] for the channel in [c.stream]. *)
Definition close_stream (s : System) : System :=
  match stream (c s) with
  | Some ch =>
      if closed ch then panic s
      else set_stream (Some (mkchan (cap ch) (buffered ch) true)) s
  | None => panic s
  end.

(** *** Returning to the application *)

Definition return_Open (ret : option error) (s : System) : System :=
  set_main Idle (emit (Returned (OpenRet ret)) s).

Definition return_Snap (r : option Frame * option error) (s : System) : System :=
  set_main Idle (emit (Returned (SnapRet (fst r) (snd r))) s).

Definition return_Close (s : System) : System :=
  set_main Idle (emit (Returned CloseRet) s).

(** *** Close *)

(** Entry of [Close]: with no camera it returns at once, and the caller
    goes on with [after]; else it goes to its first statement, the send
    on [c.stop]. *)
Definition Close_enter (k : cont) (after : System -> System) (s : System)
  : System :=
  match cam (c s) with
  | Some _ => set_main (InCloseSend k) s
  | None => after s
  end.

(** [c.stop <- struct{}{}]: [None] while the send cannot proceed. *)
Definition Close_send (k : cont) (s : System) : option System :=
  match stop (c s) with
  | Some ch =>
      if closed ch then Some (panic s)
      else if (buffered ch <? cap ch)%nat then
        Some (set_main (InCloseRange k)
                (set_stop (Some (mkchan (cap ch) (S (buffered ch)) false)) s))
      else None
  | None => None
  end.

(** One iteration of [for f := range c.stream] that receives [f]. *)
Definition Close_receive (f : snap) (s : System) : System :=
  on_cam (ReleaseFrame (index f)) s.

(** The statements of [Close] after the loop. *)
Definition Close_finish (s : System) : System :=
  set_cam None (on_cam webcam_Close (on_cam StopStreaming s)).

(** *** Open *)

(** The deferred function of [Open] when [ret] is not nil, up to the
    point where the [Close] it calls waits or returns. *)
Definition Open_deferred (ret : error) (s : System) : System :=
  let s := close_stream s in
  if panicked s then s
  else Close_enter (ToOpenReturn ret) (return_Open (Some ret)) s.

Definition has_format (pf : PixelFormat) (mf : list (PixelFormat * string)) : bool :=
  existsb (fun e => fst e =? pf) mf.

(** [Open] after the decoder has been found: steps on the streaming. *)
Definition Open_start (ans : OpenAnswers) (s : System) : System :=
  let s := on_cam (SetBufferCount (Buffers (c s))) s in
  let s := on_cam (SetAutoWhiteBalance true) s in
  let s := on_cam StartStreaming s in
  match start_ans ans with
  | Some e => Open_deferred e s
  | None => return_Open None (set_capture AtWait s)
  end.

(** [Open] after [SetImageFormat] has returned without error. *)
Definition Open_negotiated (format : FourCC) (w h : Z) (pf npf : PixelFormat)
    (nw nh stride size : Z) (ans : OpenAnswers) (s : System) : System :=
  let s :=
    if negb (npf =? pf) || negb (w =? GoInt.of_uint32 nw)
       || negb (h =? GoInt.of_uint32 nh)
    then emit (Called (Printf_asked pf w h npf nw nh)) s
    else s in
  let s := emit (Called (GetFramer_call format w h (GoInt.of_uint32 stride)
                                        (GoInt.of_uint32 size))) s in
  let r := GetFramer format w h (GoInt.of_uint32 stride) (GoInt.of_uint32 size) in
  let s := set_framer (fst r) s in
  match snd r with
  | Some e => Open_deferred e s
  | None => Open_start ans s
  end.

(** [Open] from the call of [webcam.Open] on, up to its return or to the
    [Close] of its rollback.  There is no channel operation on the way and
    the capture goroutine is started by the last statement, so this is one
    step of the application: the states inside [Open], where [c.cam] is
    set and no capture goroutine runs yet, are not states of the model. *)
Definition Open_body (device : string) (format : FourCC) (w h : Z)
    (pf : PixelFormat) (ans : OpenAnswers) (s : System) : System :=
  let s := emit (Called (webcam_Open device)) s in
  match open_ans ans with
  | inr e => return_Open (Some e) s
  | inl cam =>
      let s := set_cam (Some cam) s in
      let s := set_stop (Some (make 1)) s in
      let s := set_stream (Some (make 0)) s in
      let s := on_cam GetSupportedFormats s in
      if negb (has_format pf (formats_ans ans)) then
        Open_deferred (UnsupportedFormat device format) s
      else
        let s := on_cam (GetSupportedFrameSizes pf) s in
        if negb (existsb (fun value => Match value w h) (sizes_ans ans)) then
          Open_deferred (UnsupportedResolution device w h) s
        else
          let s := on_cam (SetImageFormat pf (GoInt.to_uint32 w)
                                          (GoInt.to_uint32 h)) s in
          let '(npf, nw, nh, stride, size, err) := setformat_ans ans in
          match err with
          | Some e => Open_deferred e s
          | None => Open_negotiated format w h pf npf nw nh stride size ans s
          end
  end.

Definition Open (device : string) (format : FourCC) (w h : Z)
    (ans : OpenAnswers) (s : System) : System :=
  let '(pf, err) := FourCCToPixelFormat format in
  match err with
  | Some e => return_Open (Some e) s
  | None =>
      Close_enter (ToOpenBody device format w h pf ans)
                  (Open_body device format w h pf ans) s
  end.

(** Where a [Close] that has run to its end returns to. *)
Definition resume (k : cont) (s : System) : System :=
  match k with
  | ToCaller => return_Close s
  | ToOpenBody device format w h pf ans => Open_body device format w h pf ans s
  | ToOpenReturn ret => return_Open (Some ret) s
  end.

Definition Close (s : System) : System :=
  Close_enter ToCaller return_Close s.

(** *** Snap *)

Definition run_rel (r : relfn) (s : System) : System :=
  match r with
  | ReleaseIndex i => on_cam (ReleaseFrame i) s
  end.

(** [Snap] up to its first statement, where it waits to receive. *)
Definition Snap (s : System) : System := set_main InSnap s.

(** [Snap] once [snap, ok := <-c.stream] has received. *)
Definition Snap_received (got : option snap) (s : System) : System :=
  match got with
  | None => return_Snap (None, Some NoFrameReceived) s
  | Some sn =>
      match framer (c s) with
      | None => panic s
      | Some fr =>
          let '(r, called) := fr (frame sn) (Some (ReleaseIndex (index sn))) in
          return_Snap r (fold_left (fun s rel => run_rel rel s) called s)
      end
  end.

(** *** capture *)

(** From the top of the loop to the [select]. *)
Definition capture_wait (a : WaitAnswer) (s : System) : System :=
  let s := on_cam (WaitForFrame (Timeout (c s))) s in
  if panicked s then s else
  match a with
  | TimedOut => s
  | WaitFailed _ => panic s
  | Completed got =>
      let s := on_cam GetFrame s in
      match got with
      | inr _ => panic s
      | inl (fr, ix) =>
          count_fetch (set_capture (AtSelect (mksnap fr ix) (fetched s)) s)
      end
  end.

(** A goroutine waits to receive from [c.stream]. *)
Definition receiver_parked (s : System) : bool :=
  match main s with
  | InSnap | InCloseRange _ => true
  | _ => false
  end.

(** The two communications of the [select] can proceed. *)
Definition send_ready (s : System) : bool :=
  match stream (c s) with
  | Some ch => closed ch || receiver_parked s
  | None => false
  end.

Definition stop_ready (s : System) : bool :=
  match stop (c s) with
  | Some ch => (0 <? buffered ch)%nat || closed ch
  | None => false
  end.

(** [case c.stream <- snap{frame, index}].  The channel has no buffer, so
    the send and the receive are one event.  The statements of the
    receiver that follow its receive, the decoder call and the return of
    [Snap], the [ReleaseFrame] of the loop of [Close], are run here in the
    same step: the model has no state between the receive and them, and a
    history shows them before the next event of the capture goroutine,
    where the program may let the capture goroutine go on first. *)
Definition select_send (got : snap) (n : nat) (s : System) : System :=
  match stream (c s) with
  | Some ch =>
      if closed ch then panic s
      else
        match main s with
        | InSnap =>
            Snap_received (Some got) (emit (Fate n ToSnap) (set_capture AtWait s))
        | InCloseRange _ =>
            Close_receive got (emit (Fate n ToClose) (set_capture AtWait s))
        | _ => s
        end
  | None => s
  end.

(** [case <-c.stop]. *)
Definition select_stop (got : snap) (n : nat) (s : System) : System :=
  let s :=
    match stop (c s) with
    | Some ch => set_stop (Some (mkchan (cap ch) (pred (buffered ch)) (closed ch))) s
    | None => s
    end in
  let s := emit (Fate n OnStop) (on_cam (ReleaseFrame (index got)) s) in
  set_capture Finished (close_stream s).

(** [default]. *)
Definition select_default (got : snap) (n : nat) (s : System) : System :=
  set_capture AtWait (emit (Fate n Drop) (on_cam (ReleaseFrame (index got)) s)).

(** *** The two goroutines together *)

(** What can happen next: the application calls in, a waiting
    application goroutine goes on by itself, or the capture goroutine
    moves, the [select] by one of its three branches. *)
Inductive Action : Type :=
| CallOpen (device : string) (format : FourCC) (w h : Z) (ans : OpenAnswers)
| CallSnap
| CallClose
| MainStep
| CaptureWait (a : WaitAnswer)
| SelectSend
| SelectStop
| SelectDefault.

Definition main_step (s : System) : option System :=
  match main s with
  | Idle => None
  | InSnap =>
      match stream (c s) with
      | Some ch => if closed ch then Some (Snap_received None s) else None
      | None => None
      end
  | InCloseSend k => Close_send k s
  | InCloseRange k =>
      match stream (c s) with
      | Some ch => if closed ch then Some (resume k (Close_finish s)) else None
      | None => None
      end
  end.

Definition step (a : Action) (s : System) : option System :=
  if panicked s then None else
  match a with
  | CallOpen device format w h ans =>
      match main s with
      | Idle => Some (Open device format w h ans s)
      | _ => None
      end
  | CallSnap =>
      match main s with
      | Idle => Some (Snap s)
      | _ => None
      end
  | CallClose =>
      match main s with
      | Idle => Some (Close s)
      | _ => None
      end
  | MainStep => main_step s
  | CaptureWait a =>
      match capture s with
      | AtWait => Some (capture_wait a s)
      | _ => None
      end
  | SelectSend =>
      match capture s with
      | AtSelect got n =>
          if send_ready s then Some (select_send got n s) else None
      | _ => None
      end
  | SelectStop =>
      match capture s with
      | AtSelect got n =>
          if stop_ready s then Some (select_stop got n s) else None
      | _ => None
      end
  | SelectDefault =>
      match capture s with
      | AtSelect got n =>
          if send_ready s || stop_ready s then None
          else Some (select_default got n s)
      | _ => None
      end
  end.

Fixpoint run (acts : list Action) (s : System) : option System :=
  match acts with
  | [] => Some s
  | a :: rest =>
      match step a s with
      | Some s' => run rest s'
      | None => None
      end
  end.

Inductive reachable : System -> Prop :=
| reach_fresh (timeout buffers : Z) : reachable (fresh timeout buffers)
| reach_step (a : Action) (s s' : System) :
    reachable s -> step a s = Some s' -> reachable s'.

Definition capture_alive (s : System) : bool :=
  match capture s with
  | AtWait | AtSelect _ _ => true
  | _ => false
  end.

Definition is_capture_action (a : Action) : bool :=
  match a with
  | CaptureWait _ | SelectSend | SelectStop | SelectDefault => true
  | _ => false
  end.

(** The fetches that have met their fate, in order. *)
Definition fates (h : list Event) : list nat :=
  flat_map (fun e => match e with Fate n _ => [n] | _ => [] end) h.

(** The arguments of the calls of [GetFramer], in order. *)
Definition framer_requests (h : list Event) : list (FourCC * Z * Z * Z * Z) :=
  flat_map (fun e => match e with
                     | Called (GetFramer_call f w h st sz) => [(f, w, h, st, sz)]
                     | _ => []
                     end) h.

(** *** Notions for the statements *)

(** The index a release function was built for. *)
Definition released_index (r : relfn) : Z :=
  match r with ReleaseIndex i => i end.

(** The state in which the deferred function of [Open] leaves [Close] to
    do the rollback: camera held, [c.stream] closed, [c.stop] as made. *)
Definition rolling_back (ret : error) (s : System) : Prop :=
  main s = InCloseSend (ToOpenReturn ret)
  /\ panicked s = false
  /\ cam (c s) <> None
  /\ stop (c s) = Some (mkchan 1 0 false)
  /\ stream (c s) = Some (mkchan 0 0 true).

(** The three ways [Open] can end once [webcam.Open] is called. *)
Inductive Open_outcome (device : string) (ans : OpenAnswers) (s s' : System)
  : Prop :=
| refused (e : error) :
    open_ans ans = inr e ->
    s' = return_Open (Some e) (emit (Called (webcam_Open device)) s) ->
    Open_outcome device ans s s'
| rolled_back (e : error) (cam0 : Webcam) (h' : list Event) :
    open_ans ans = inl cam0 ->
    rolling_back e s' ->
    history s' = history s ++ h' ->
    fates h' = [] ->
    ~ In (Called StopStreaming) h' ->
    ~ In (Called webcam_Close) h' ->
    (forall r, ~ In (Returned r) h') ->
    capture s' = capture s ->
    fetched s' = fetched s ->
    Open_outcome device ans s s'
| started (cam0 : Webcam) (h' : list Event) :
    open_ans ans = inl cam0 ->
    main s' = Idle ->
    panicked s' = false ->
    cam (c s') = Some cam0 ->
    stop (c s') = Some (make 1) ->
    stream (c s') = Some (make 0) ->
    history s' = (history s ++ h') ++ [Returned (OpenRet None)] ->
    fates h' = [] ->
    (forall r, ~ In (Returned r) h') ->
    capture s' = AtWait ->
    fetched s' = fetched s ->
    Open_outcome device ans s s'.

(** The fetch that the capture goroutine holds at its [select]. *)
Definition pending (s : System) : list nat :=
  match capture s with
  | AtSelect _ n => [n]
  | _ => []
  end.

Definition stream_open (s : System) : bool :=
  match stream (c s) with
  | Some ch => negb (closed ch)
  | None => false
  end.

Definition in_Close (m : main_pc) : bool :=
  match m with
  | InCloseSend _ | InCloseRange _ => true
  | _ => false
  end.

(** What holds of every state the pipeline can reach: a running capture
    goroutine has a camera and an open [c.stream]; without camera
    [c.stream] is nil or closed; [Close] is at work only with a camera;
    [c.stop] is never closed; and each fetch meets one fate at most. *)
Record Inv (s : System) : Prop := mkInv {
  inv_alive : capture_alive s = true -> cam (c s) <> None /\ stream_open s = true;
  inv_closed : cam (c s) = None -> stream_open s = false;
  inv_in_close : in_Close (main s) = true -> cam (c s) <> None;
  inv_stop : forall ch, stop (c s) = Some ch -> closed ch = false;
  inv_nodup : NoDup (fates (history s) ++ pending s);
  inv_bound : Forall (fun n => (n < fetched s)%nat) (fates (history s) ++ pending s)
}.

(** From [s] to [s'] no call of [Close] returns. *)
Definition quiet (s s' : System) : Prop :=
  exists evs, history s' = history s ++ evs /\ ~ In (Returned CloseRet) evs.

(** The step returns from a call of [Close]. *)
Definition returns_Close (s s' : System) : Prop :=
  exists h, history s' = history s ++ h ++ [Returned CloseRet].

(** *** Counting in the history, and what more every reachable state
    satisfies *)

Definition is_GetFrame (e : Event) : bool :=
  match e with
  | Called GetFrame => true
  | _ => false
  end.

Definition is_release (e : Event) : bool :=
  match e with
  | Called (ReleaseFrame _) => true
  | _ => false
  end.

(** The fate of a fetch that the capture goroutine has not sent on
    [c.stream]: dropped at the [default] branch, or given back at the stop
    branch. *)
Definition is_discarded (e : Event) : bool :=
  match e with
  | Fate _ Drop | Fate _ OnStop => true
  | _ => false
  end.

Definition count (p : Event -> bool) (h : list Event) : nat :=
  List.length (filter p h).

(** What [Open] can add to the history. *)
Definition is_setup (e : Event) : bool :=
  match e with
  | Called (webcam_Open _) | Called GetSupportedFormats
  | Called (GetSupportedFrameSizes _) | Called (SetImageFormat _ _ _)
  | Called (Printf_asked _ _ _ _ _ _) | Called (GetFramer_call _ _ _ _ _)
  | Called (SetBufferCount _) | Called (SetAutoWhiteBalance _)
  | Called StartStreaming => true
  | Returned (OpenRet _) => true
  | _ => false
  end.

Definition in_range (m : main_pc) : bool :=
  match m with
  | InCloseRange _ => true
  | _ => false
  end.

Definition is_application_action (a : Action) : bool :=
  match a with
  | CallOpen _ _ _ _ _ | CallSnap | CallClose | MainStep => true
  | _ => false
  end.

(** With a camera and outside of the loop of [Close], [c.stop] is empty;
    in that loop a stop request is pending or [c.stream] is closed already;
    [c.stream] is open only while the capture goroutine runs; with a camera
    and the application between two calls or waiting in [Snap], the capture
    goroutine runs; the fetches are numbered in order and meet their fates
    in order, one [GetFrame] each; and each fetch that the capture
    goroutine has dropped or given back on the stop request, it has
    released. *)
Record Inv2 (s : System) : Prop := mkInv2 {
  inv2_token : cam (c s) <> None -> in_range (main s) = false ->
               stop (c s) = Some (mkchan 1 0 false);
  inv2_range : in_range (main s) = true ->
               stop_ready s = true \/ stream_open s = false;
  inv2_open : stream_open s = true -> capture_alive s = true;
  inv2_running : cam (c s) <> None -> in_Close (main s) = false ->
                 capture_alive s = true;
  inv2_seq : fates (history s) ++ pending s = seq 0 (fetched s);
  inv2_got : count is_GetFrame (history s) = fetched s;
  inv2_released : (count is_discarded (history s)
                    <= count is_release (history s))%nat
}.

(** The two calls that take a public field of the Snapper take the value
    [timeout] of [c.Timeout] and the value [buffers] of [c.Buffers]. *)
Definition uses_config (timeout buffers : Z) (e : Event) : bool :=
  match e with
  | Called (WaitForFrame t) => t =? timeout
  | Called (SetBufferCount n) => n =? buffers
  | _ => true
  end.

Definition configured (timeout buffers : Z) (s : System) : Prop :=
  Timeout (c s) = timeout /\ Buffers (c s) = buffers
  /\ forallb (uses_config timeout buffers) (history s) = true.

End Pipeline.

Arguments NewSnapper {Frame}.
Arguments init {Frame}.
Arguments set_cam {Frame}.
Arguments set_framer {Frame}.
Arguments set_stop {Frame}.
Arguments set_stream {Frame}.
Arguments set_main {Frame}.
Arguments set_capture {Frame}.
Arguments emit {Frame}.
Arguments count_fetch {Frame}.
Arguments panic {Frame}.
Arguments on_cam {Frame}.
Arguments close_stream {Frame}.
Arguments return_Open {Frame}.
Arguments return_Snap {Frame}.
Arguments return_Close {Frame}.
Arguments Close_enter {Frame}.
Arguments Close_send {Frame}.
Arguments Close_receive {Frame}.
Arguments Close_finish {Frame}.
Arguments Open_deferred {Frame}.
Arguments Open_start {Frame}.
Arguments Open_negotiated {Frame}.
Arguments Open_body {Frame}.
Arguments Open {Frame}.
Arguments resume {Frame}.
Arguments Close {Frame}.
Arguments run_rel {Frame}.
Arguments Snap_received {Frame}.
Arguments Snap {Frame}.
Arguments capture_wait {Frame}.
Arguments receiver_parked {Frame}.
Arguments send_ready {Frame}.
Arguments stop_ready {Frame}.
Arguments select_send {Frame}.
Arguments select_stop {Frame}.
Arguments select_default {Frame}.
Arguments main_step {Frame}.
Arguments step {Frame}.
Arguments run {Frame}.
Arguments reachable {Frame}.
Arguments capture_alive {Frame}.
Arguments fates {Frame}.
Arguments framer_requests {Frame}.
Arguments mkSnapper {Frame}.
Arguments mkSystem {Frame}.
Arguments OpenRet {Frame}.
Arguments SnapRet {Frame}.
Arguments CloseRet {Frame}.
Arguments Called {Frame}.
Arguments Returned {Frame}.
Arguments Fate {Frame}.
Arguments cam {Frame}.
Arguments Timeout {Frame}.
Arguments Buffers {Frame}.
Arguments framer {Frame}.
Arguments stop {Frame}.
Arguments stream {Frame}.
Arguments c {Frame}.
Arguments main {Frame}.
Arguments capture {Frame}.
Arguments history {Frame}.
Arguments fetched {Frame}.
Arguments panicked {Frame}.
Arguments reach_fresh {Frame}.
Arguments fresh {Frame}.
Arguments reach_step {Frame}.
Arguments rolling_back {Frame}.
Arguments Open_outcome {Frame}.
Arguments refused {Frame}.
Arguments rolled_back {Frame}.
Arguments started {Frame}.
Arguments mkInv {Frame}.
Arguments inv_alive {Frame}.
Arguments inv_closed {Frame}.
Arguments inv_in_close {Frame}.
Arguments inv_stop {Frame}.
Arguments inv_nodup {Frame}.
Arguments inv_bound {Frame}.
Arguments pending {Frame}.
Arguments stream_open {Frame}.
Arguments Inv {Frame}.
Arguments returns_Close {Frame}.
Arguments quiet {Frame}.
Arguments is_GetFrame {Frame}.
Arguments is_release {Frame}.
Arguments is_discarded {Frame}.
Arguments count {Frame}.
Arguments is_setup {Frame}.
Arguments Inv2 {Frame}.
Arguments mkInv2 {Frame}.
Arguments inv2_token {Frame}.
Arguments inv2_range {Frame}.
Arguments inv2_open {Frame}.
Arguments inv2_running {Frame}.
Arguments inv2_seq {Frame}.
Arguments inv2_got {Frame}.
Arguments inv2_released {Frame}.
Arguments uses_config {Frame}.
Arguments configured {Frame}.

End snapper.

(** ** A camera for the examples *)

Module example.

Import snapper.
Local Open Scope string_scope.

Definition Frame : Type := rgb3.fRGB3 relfn.

(** The driver's identifier of packed RGB, the four bytes of RGB3. *)
Definition V4L2_PIX_FMT_RGB24 : PixelFormat := 859981650.

(** Modelled from the spec: [FourCCToPixelFormat] of frame.go, which is
    not in this file; it resolves the format code to the identifier of the
    driver and fails on a code it does not know. *)
Definition FourCCToPixelFormat (f : FourCC) : PixelFormat * option error :=
  if String.eqb f "RGB3" then (V4L2_PIX_FMT_RGB24, None)
  else (0, Some (External "unknown format")).

(** Modelled from the spec: the registry lookup [GetFramer] of frame.go,
    which is not in this file; [init] of rgb3.go has registered
    [newFramerRGB3] for the code RGB3, and a code without decoder is an
    error. *)
Definition GetFramer (padded : bool) (format : FourCC) (w h stride size : Z)
  : option (Framer Frame) * option error :=
  if String.eqb format "RGB3" then (Some (rgb3.newFramerRGB3 padded w h), None)
  else (None, Some (External "no framer")).

Definition vga : FrameSize := mkFrameSize 640 640 0 480 480 0.
Definition tiny : FrameSize := mkFrameSize 2 2 0 2 2 0.

(** A driver that does not offer the format. *)
Definition no_formats : OpenAnswers :=
  mkOpenAnswers (inl 1%nat) [] [] (0, 0, 0, 0, 0, None) None.

(** A driver that answers 640 by 480 with 320 by 240. *)
Definition adjusting : OpenAnswers :=
  mkOpenAnswers (inl 1%nat) [(V4L2_PIX_FMT_RGB24, "RGB3")] [vga]
                (V4L2_PIX_FMT_RGB24, 320, 240, 960, 230400, None) None.

(** A driver that grants 2 by 2. *)
Definition granting : OpenAnswers :=
  mkOpenAnswers (inl 1%nat) [(V4L2_PIX_FMT_RGB24, "RGB3")] [tiny]
                (V4L2_PIX_FMT_RGB24, 2, 2, 6, 12, None) None.

Definition step := step FourCCToPixelFormat (GetFramer false).
Definition run := run FourCCToPixelFormat (GetFramer false).

Definition or_init (r : option (System Frame)) : System Frame :=
  match r with
  | Some s => s
  | None => init
  end.

Definition twelve : list byte :=
  [x00; x01; x02; x03; x04; x05; x06; x07; x08; x09; x0a; x0b].

(** The pipeline opened on the granting driver, with the capture
    goroutine at its [select] holding a first frame. *)
Definition to_select : list Action :=
  [CallOpen "/dev/video0" "RGB3" 2 2 granting;
   CaptureWait (Completed (inl (twelve, 3)))].

Definition opened_at_select : System Frame := or_init (run to_select init).

(** The same with the application waiting in [Snap], on a frame of the
    right and of a wrong length. *)
Definition to_snap (buf : list byte) : list Action :=
  [CallOpen "/dev/video0" "RGB3" 2 2 granting; CallSnap;
   CaptureWait (Completed (inl (buf, 3)))].

Definition snap_waiting (buf : list byte) : System Frame :=
  or_init (run (to_snap buf) init).

(** A pipeline closed again after a failed [Open]. *)
Definition to_failure : list Action :=
  [CallOpen "/dev/video0" "RGB3" 640 480 no_formats; MainStep; MainStep].

Definition closed_after_failure : System Frame := or_init (run to_failure init).

(** [Close] and then [Snap] on a Snapper as [NewSnapper] returns it. *)
Definition snap_unopened : System Frame :=
  or_init (run [CallClose; CallSnap] init).

(** [Open] on the driver without formats, before the rollback. *)
Definition failing : System Frame :=
  Open_body (GetFramer false) "/dev/video0" "RGB3" 640 480 V4L2_PIX_FMT_RGB24
            no_formats init.

(** Two frames dropped at the [select], no [Snap] waiting. *)
Definition to_two_drops : list Action :=
  [CallOpen "/dev/video0" "RGB3" 2 2 granting;
   CaptureWait (Completed (inl (twelve, 3))); SelectDefault;
   CaptureWait (Completed (inl (twelve, 4))); SelectDefault].

Definition after_two_drops : System Frame := or_init (run to_two_drops init).

(** [Close] in its loop while the capture goroutine waits for the driver. *)
Definition to_close_loop : list Action :=
  [CallOpen "/dev/video0" "RGB3" 2 2 granting; CallClose; MainStep].

Definition in_close_loop : System Frame := or_init (run to_close_loop init).

End example.

(** * Properties *)

(** ** Arithmetic of [int] *)

Lemma wrap_in_int (z : Z) : GoInt.in_int (GoInt.wrap z).
Proof.
  unfold GoInt.in_int, GoInt.wrap, GoInt.min_int, GoInt.max_int.
  pose proof (Z.mod_pos_bound (z + 2 ^ 63) (2 ^ 64) ltac:(lia)). lia.
Qed.

Lemma wrap_small (z : Z) : GoInt.in_int z -> GoInt.wrap z = z.
Proof.
  unfold GoInt.in_int, GoInt.wrap, GoInt.min_int, GoInt.max_int. intros Hz.
  rewrite Z.mod_small by lia. lia.
Qed.

Lemma wrap_congr (a b : Z) :
  a mod 2 ^ 64 = b mod 2 ^ 64 -> GoInt.wrap a = GoInt.wrap b.
Proof.
  intros Hab. unfold GoInt.wrap.
  rewrite (Z.add_mod a), (Z.add_mod b), Hab by lia. reflexivity.
Qed.

Lemma wrap_mod (z : Z) : GoInt.wrap z mod 2 ^ 64 = z mod 2 ^ 64.
Proof.
  unfold GoInt.wrap.
  replace ((z + 2 ^ 63) mod 2 ^ 64 - 2 ^ 63)
    with ((z + 2 ^ 63) mod 2 ^ 64 + (- 2 ^ 63)) by lia.
  rewrite Z.add_mod_idemp_l by lia. f_equal. lia.
Qed.

Lemma wrap_mul_l (a b : Z) : GoInt.wrap (GoInt.wrap a * b) = GoInt.wrap (a * b).
Proof.
  apply wrap_congr.
  rewrite (Z.mul_mod (GoInt.wrap a)), wrap_mod, <- Z.mul_mod by lia. reflexivity.
Qed.

Lemma wrap_mul_r (a b : Z) : GoInt.wrap (a * GoInt.wrap b) = GoInt.wrap (a * b).
Proof. rewrite (Z.mul_comm a), wrap_mul_l. f_equal. lia. Qed.

(** ** Rounding up *)

Lemma round_up_least (m n : Z) :
  0 < m ->
  (m | round_up m n) /\ n <= round_up m n < n + m
  /\ forall k, (m | k) -> n <= k -> round_up m n <= k.
Proof.
  intros Hm. unfold round_up.
  pose proof (Z.mul_div_le (n + m - 1) m Hm) as Hle.
  pose proof (Z.mul_succ_div_gt (n + m - 1) m Hm) as Hgt.
  split; [exists ((n + m - 1) / m); lia|]. split; [lia|].
  intros k [q ->] Hk.
  assert (Hq : (n + m - 1) / m < q + 1); [|nia].
  apply Z.div_lt_upper_bound; nia.
Qed.

Lemma ldiff_low_bits (k z : Z) :
  0 <= k -> Z.ldiff z (2 ^ k - 1) = 2 ^ k * (z / 2 ^ k).
Proof.
  intros Hk.
  replace (2 ^ k - 1) with (Z.ones k) by (rewrite Z.ones_equiv; lia).
  rewrite Z.ldiff_ones_r, Z.shiftr_div_pow2, Z.shiftl_mul_pow2 by lia. lia.
Qed.

Lemma andnot_round_up (k n : Z) :
  0 <= k ->
  GoInt.andnot (n + (2 ^ k - 1)) (2 ^ k - 1) = round_up (2 ^ k) n.
Proof.
  intros Hk. unfold GoInt.andnot, round_up.
  rewrite ldiff_low_bits by lia. do 2 f_equal. lia.
Qed.

(** Clearing low bits commutes with the reduction to [int]. *)
Lemma andnot_wrap (k z : Z) :
  0 <= k <= 63 ->
  GoInt.andnot (GoInt.wrap z) (2 ^ k - 1) = GoInt.wrap (GoInt.andnot z (2 ^ k - 1)).
Proof.
  intros Hk. unfold GoInt.andnot. rewrite !ldiff_low_bits by lia.
  set (q := (z + 2 ^ 63) / 2 ^ 64).
  assert (Hw : GoInt.wrap z = z + (- q * 2 ^ (64 - k)) * 2 ^ k).
  { unfold GoInt.wrap, q. rewrite Z.mod_eq by lia.
    replace (2 ^ 64) with (2 ^ (64 - k) * 2 ^ k)
      by (rewrite <- Z.pow_add_r by lia; f_equal; lia).
    lia. }
  assert (H2k : 0 < 2 ^ k) by (apply Z.pow_pos_nonneg; lia).
  rewrite Hw, Z.div_add by lia.
  assert (Hrange : GoInt.in_int (2 ^ k * (z / 2 ^ k + - q * 2 ^ (64 - k)))).
  { pose proof (wrap_in_int z) as Hin. rewrite Hw in Hin.
    rewrite <- (Z.div_add z (- q * 2 ^ (64 - k)) (2 ^ k)) by lia.
    set (v := z + - q * 2 ^ (64 - k) * 2 ^ k) in *.
    unfold GoInt.in_int, GoInt.min_int, GoInt.max_int in *.
    pose proof (Z.mul_div_le v (2 ^ k) H2k).
    split; [|lia].
    assert (Hd : - 2 ^ (63 - k) <= v / 2 ^ k).
    { apply Z.div_le_lower_bound; [lia|].
      replace (2 ^ k * - 2 ^ (63 - k)) with (- (2 ^ k * 2 ^ (63 - k))) by lia.
      rewrite <- Z.pow_add_r by lia.
      replace (k + (63 - k)) with 63 by lia. lia. }
    replace (2 ^ 63) with (2 ^ k * 2 ^ (63 - k))
      by (rewrite <- Z.pow_add_r by lia; f_equal; lia).
    nia. }
  rewrite <- (wrap_small _ Hrange). apply wrap_congr.
  replace (2 ^ k * (z / 2 ^ k + - q * 2 ^ (64 - k)))
    with (2 ^ k * (z / 2 ^ k) + (- q) * (2 ^ (64 - k) * 2 ^ k)) by lia.
  rewrite <- Z.pow_add_r by lia. replace (64 - k + k) with 64 by lia.
  apply Z.mod_add. lia.
Qed.

(** The expected size and the stride of the padded decoder, for all [int]
    arguments: the rounded values, reduced to [int]. *)
Lemma geometryRGB3_padded_wrap (w h : Z) :
  rgb3.geometryRGB3 true w h
  = (GoInt.wrap (3 * round_up 32 w * round_up 16 h), GoInt.wrap (round_up 32 w)).
Proof.
  unfold rgb3.geometryRGB3, GoInt.add, GoInt.mul.
  pose proof (andnot_wrap 5 (w + 31) ltac:(lia)) as Hw.
  pose proof (andnot_wrap 4 (h + 15) ltac:(lia)) as Hh.
  pose proof (andnot_round_up 5 w ltac:(lia)) as Rw.
  pose proof (andnot_round_up 4 h ltac:(lia)) as Rh.
  change (2 ^ 5 - 1) with 31 in *. change (2 ^ 4 - 1) with 15 in *.
  change (2 ^ 5) with 32 in *. change (2 ^ 4) with 16 in *.
  rewrite Hw, Hh, Rw, Rh.
  f_equal. rewrite (wrap_mul_r 3 (round_up 32 w)), wrap_mul_r, wrap_mul_l. reflexivity.
Qed.

(** ** The RGB3 decoder *)

Ltac int_bounds :=
  unfold GoInt.in_int, GoInt.min_int, GoInt.max_int in *;
  change (2 ^ 63) with 9223372036854775808 in *.

Lemma at_index_in_range (buf : list byte) (i : Z) :
  0 <= i < len buf -> exists v, at_index buf i = Some v.
Proof.
  intros Hi. unfold at_index.
  replace (0 <=? i) with true by (symmetry; apply Z.leb_le; lia).
  replace (i <? len buf) with true by (symmetry; apply Z.ltb_lt; lia).
  simpl. destruct (nth_error buf (Z.to_nat i)) as [v|] eqn:Hn; [now exists v|].
  apply nth_error_None in Hn. unfold len in Hi. lia.
Qed.

Lemma at_index_some_range (buf : list byte) (i : Z) (v : byte) :
  at_index buf i = Some v -> 0 <= i < len buf.
Proof.
  unfold at_index. intros Hv.
  destruct (0 <=? i) eqn:H0; [|discriminate].
  destruct (i <? len buf) eqn:H1; [|discriminate].
  apply Z.leb_le in H0. apply Z.ltb_lt in H1. lia.
Qed.

(** A decode call that returns a frame was given a buffer of the expected
    size, and the frame is the record built on the last line of
    [frameRGB3]. *)
Lemma frameRGB3_accepted (Rel : Type) (size bw w h : Z) (buf : list byte)
    (rel : option Rel) (f : rgb3.fRGB3 Rel) (e : option error) (called : list Rel) :
  rgb3.frameRGB3 size bw w h buf rel = ((Some f, e), called) ->
  len buf = size /\ f = rgb3.mkfRGB3 (image.Rect 0 0 w h) bw buf rel
  /\ e = None /\ called = [].
Proof.
  unfold rgb3.frameRGB3. destruct (len buf =? size) eqn:Hlen; simpl.
  - apply Z.eqb_eq in Hlen. intros Heq. inversion Heq. auto.
  - discriminate.
Qed.

Lemma geometryRGB3_unpadded (w h : Z) :
  rgb3.geometryRGB3 false w h = (GoInt.wrap (3 * h * w), 0).
Proof. unfold rgb3.geometryRGB3, GoInt.mul. now rewrite wrap_mul_l. Qed.

(** C5, amended: with padding on, the expected buffer size is three times
    the width rounded up to a multiple of 32 times the height rounded up to
    a multiple of 16, as long as the rounded width and that product are
    [int]s; for 50 by 10 the stride is 64, the row count 16 and the size
    3072. *)
Theorem padded_expected_size (w h : Z) :
  GoInt.in_int (round_up 32 w) ->
  GoInt.in_int (3 * round_up 32 w * round_up 16 h) ->
  rgb3.geometryRGB3 true w h = (3 * round_up 32 w * round_up 16 h, round_up 32 w)
  /\ ((32 | round_up 32 w) /\ w <= round_up 32 w < w + 32)
  /\ ((16 | round_up 16 h) /\ h <= round_up 16 h < h + 16)
  /\ (forall (Rel : Type) (buf : list byte) (rel : option Rel),
        (exists f, rgb3.newFramerRGB3 true w h buf rel = ((Some f, None), []))
        <-> len buf = 3 * round_up 32 w * round_up 16 h)
  /\ round_up 32 50 = 64 /\ round_up 16 10 = 16
  /\ rgb3.geometryRGB3 true 50 10 = (3 * 64 * 16, 64)
  /\ 3 * 64 * 16 = 3072.
Proof.
  intros Hstride Hsize.
  assert (Hgeo : rgb3.geometryRGB3 true w h
                 = (3 * round_up 32 w * round_up 16 h, round_up 32 w)).
  { rewrite geometryRGB3_padded_wrap, !wrap_small by assumption. reflexivity. }
  split; [exact Hgeo|].
  pose proof (round_up_least 32 w ltac:(lia)) as [Hw1 [Hw2 _]].
  pose proof (round_up_least 16 h ltac:(lia)) as [Hh1 [Hh2 _]].
  split; [auto|]. split; [auto|].
  split; [|repeat split; reflexivity].
  intros Rel buf rel. unfold rgb3.newFramerRGB3. rewrite Hgeo. split.
  - intros [f Hf]. apply frameRGB3_accepted in Hf. tauto.
  - intros Hlen. unfold rgb3.frameRGB3.
    replace (len buf =? _) with true by (symmetry; apply Z.eqb_eq; exact Hlen).
    simpl. eauto.
Qed.

Lemma padded_expected_size_witness :
  rgb3.geometryRGB3 true 50 10 = (3 * round_up 32 50 * round_up 16 10, round_up 32 50).
Proof.
  apply (padded_expected_size 50 10);
    unfold GoInt.in_int, GoInt.min_int, GoInt.max_int; vm_compute; split; discriminate.
Defined.

(** C5, as stated, fails where the product is not an [int]: the width
    2^62 and the height 16 are multiples of 32 and of 16 already, three
    times their product is 3 * 2^66, and the multiplications of
    [newFramerRGB3] wrap around to the expected size 0, so that the decoder
    accepts the empty buffer. *)
Lemma padded_size_overflows :
  GoInt.in_int (2 ^ 62) /\ GoInt.in_int 16
  /\ round_up 32 (2 ^ 62) = 2 ^ 62 /\ round_up 16 16 = 16
  /\ rgb3.geometryRGB3 true (2 ^ 62) 16 = (0, 2 ^ 62)
  /\ fst (rgb3.geometryRGB3 true (2 ^ 62) 16)
     <> 3 * round_up 32 (2 ^ 62) * round_up 16 16
  /\ exists f,
       rgb3.newFramerRGB3 true (2 ^ 62) 16 [] (@None unit) = ((Some f, None), []).
Proof.
  unfold GoInt.in_int.
  split; [vm_compute; split; discriminate|].
  split; [vm_compute; split; discriminate|].
  split; [vm_compute; reflexivity|]. split; [vm_compute; reflexivity|].
  split; [vm_compute; reflexivity|]. split; [vm_compute; discriminate|].
  eexists. vm_compute. reflexivity.
Qed.

(** C10, amended: for a buffer the decoder accepts and a coordinate inside
    the rectangle, the three indices read by [At] lie inside the buffer, so
    [At] returns a colour and does not panic, with or without padding,
    as long as the expected size, 3 * stride * rows with padding and
    3 * h * w without, is an [int]. *)
Theorem At_within_buffer (Rel : Type) (padded : bool) (w h x y : Z)
    (buf : list byte) (rel : option Rel) (f : rgb3.fRGB3 Rel) :
  size_fits padded w h ->
  rgb3.newFramerRGB3 padded w h buf rel = ((Some f, None), []) ->
  0 <= x < w -> 0 <= y < h ->
  let i := rgb3.At_offset f x y in
  rgb3.frame f = buf
  /\ 0 <= i /\ i + 2 < len buf
  /\ GoInt.add i 1 = i + 1 /\ GoInt.add i 2 = i + 2
  /\ exists px, rgb3.At f x y = Some px.
Proof.
  intros Hfits Hacc Hx Hy.
  assert (Hcore : rgb3.frame f = buf
                  /\ 0 <= rgb3.At_offset f x y
                  /\ rgb3.At_offset f x y + 2 < len buf
                  /\ rgb3.At_offset f x y + 2 <= GoInt.max_int).
  { unfold rgb3.newFramerRGB3 in Hacc. destruct padded; unfold size_fits in Hfits.
    - pose proof (round_up_least 32 w ltac:(lia)) as [_ [Hw _]].
      pose proof (round_up_least 16 h ltac:(lia)) as [_ [Hh _]].
      set (rs := round_up 32 w) in *. set (rh := round_up 16 h) in *.
      assert (Hrow : rs * y + rs <= rs * rh) by nia.
      assert (Hy0 : 0 <= rs * y) by nia.
      assert (Hrr : rs * 1 <= rs * rh) by (apply Z.mul_le_mono_nonneg_l; lia).
      assert (Hrs : GoInt.in_int rs) by (int_bounds; lia).
      rewrite geometryRGB3_padded_wrap in Hacc. fold rs rh in Hacc.
      rewrite !wrap_small in Hacc by assumption.
      apply frameRGB3_accepted in Hacc as [Hlen [-> _]].
      unfold rgb3.At_offset, GoInt.add, GoInt.mul; simpl. rewrite <- Hlen in *.
      rewrite (wrap_small (rs * y)) by (int_bounds; lia).
      rewrite (wrap_small (rs * y * 3)) by (int_bounds; lia).
      rewrite (wrap_small (x * 3)) by (int_bounds; lia).
      rewrite wrap_small by (int_bounds; lia).
      int_bounds. repeat split; lia.
    - rewrite geometryRGB3_unpadded in Hacc.
      rewrite wrap_small in Hacc by assumption.
      apply frameRGB3_accepted in Hacc as [Hlen [-> _]].
      unfold rgb3.At_offset, GoInt.add, GoInt.mul; simpl. rewrite <- Hlen in *.
      assert (Hrow : 3 * w <= 3 * h * w) by nia.
      change (GoInt.wrap 0) with 0. simpl (0 * 3). change (GoInt.wrap 0) with 0.
      rewrite (wrap_small (x * 3)) by (int_bounds; lia).
      rewrite wrap_small by (int_bounds; lia).
      int_bounds. repeat split; lia. }
  destruct Hcore as [Hframe [H0 [H2 Hmax]]]. cbv zeta.
  assert (H1' : GoInt.add (rgb3.At_offset f x y) 1 = rgb3.At_offset f x y + 1).
  { unfold GoInt.add. apply wrap_small. int_bounds. lia. }
  assert (H2' : GoInt.add (rgb3.At_offset f x y) 2 = rgb3.At_offset f x y + 2).
  { unfold GoInt.add. apply wrap_small. int_bounds. lia. }
  repeat (split; [assumption|]).
  unfold rgb3.At. cbv zeta. rewrite H1', H2', Hframe.
  destruct (at_index_in_range buf (rgb3.At_offset f x y)) as [r ->]; [lia|].
  destruct (at_index_in_range buf (rgb3.At_offset f x y + 1)) as [g ->]; [lia|].
  destruct (at_index_in_range buf (rgb3.At_offset f x y + 2)) as [bl ->]; [lia|].
  eauto.
Qed.

Lemma At_within_buffer_witness :
  let buf := repeat x00 1536 in
  let f := rgb3.mkfRGB3 (image.Rect 0 0 2 1) 32 buf (@None unit) in
  rgb3.frame f = buf
  /\ 0 <= rgb3.At_offset f 1 0 /\ rgb3.At_offset f 1 0 + 2 < len buf
  /\ GoInt.add (rgb3.At_offset f 1 0) 1 = rgb3.At_offset f 1 0 + 1
  /\ GoInt.add (rgb3.At_offset f 1 0) 2 = rgb3.At_offset f 1 0 + 2
  /\ exists px, rgb3.At f 1 0 = Some px.
Proof.
  intros buf f.
  apply (At_within_buffer unit true 2 1 1 0 buf None f).
  - unfold size_fits, GoInt.in_int. vm_compute. split; discriminate.
  - vm_compute. reflexivity.
  - lia.
  - lia.
Defined.

(** C10, as stated, fails where the expected size overflows: without
    padding, for the width 2^62 and the height 4 the size 3 * 4 * 2^62
    wraps around to 0, the decoder accepts the empty buffer, and [At(0, 0)],
    a coordinate inside the rectangle, reads index 0 of it and panics; with
    padding the same happens for the width 2^62 and the height 16. *)
Lemma At_overflow_panics :
  let f := rgb3.mkfRGB3 (image.Rect 0 0 (2 ^ 62) 4) 0 [] (@None unit) in
  let g := rgb3.mkfRGB3 (image.Rect 0 0 (2 ^ 62) 16) (2 ^ 62) [] (@None unit) in
  (rgb3.newFramerRGB3 false (2 ^ 62) 4 [] None = ((Some f, None), [])
   /\ 0 <= 0 < 2 ^ 62 /\ 0 <= 0 < 4
   /\ rgb3.At_offset f 0 0 = 0 /\ len (rgb3.frame f) = 0
   /\ ~ rgb3.At_offset f 0 0 < len (rgb3.frame f)
   /\ rgb3.At f 0 0 = None)
  /\ (rgb3.newFramerRGB3 true (2 ^ 62) 16 [] None = ((Some g, None), [])
      /\ 0 <= 0 < 2 ^ 62 /\ 0 <= 0 < 16
      /\ rgb3.At_offset g 0 0 = 0 /\ len (rgb3.frame g) = 0
      /\ ~ rgb3.At_offset g 0 0 < len (rgb3.frame g)
      /\ rgb3.At g 0 0 = None).
Proof.
  cbv zeta. split.
  - split; [vm_compute; reflexivity|]. split; [lia|]. split; [lia|].
    split; [vm_compute; reflexivity|]. split; [reflexivity|].
    split; [vm_compute; discriminate|]. vm_compute. reflexivity.
  - split; [vm_compute; reflexivity|]. split; [lia|]. split; [lia|].
    split; [vm_compute; reflexivity|]. split; [reflexivity|].
    split; [vm_compute; discriminate|]. vm_compute. reflexivity.
Qed.

(** Without padding the stride stored in the frame is zero, and [At] reads
    the same bytes on every row. *)
Lemma At_unpadded_row_independent (Rel : Type) (w h x y : Z) (buf : list byte)
    (rel : option Rel) (f : rgb3.fRGB3 Rel) :
  rgb3.newFramerRGB3 false w h buf rel = ((Some f, None), []) ->
  rgb3.width f = 0 /\ rgb3.At f x y = rgb3.At f x 0.
Proof.
  unfold rgb3.newFramerRGB3. rewrite geometryRGB3_unpadded. intros Hacc.
  apply frameRGB3_accepted in Hacc as [_ [-> _]]. split; [reflexivity|].
  unfold rgb3.At, rgb3.At_offset, GoInt.mul. simpl rgb3.width.
  rewrite !Z.mul_0_l. reflexivity.
Qed.

(** C1: the decoder without padding, on the 2 by 2 buffer of the bytes 0 to
    11: the frame is accepted, its stride is 0, and [At(0, 1)] returns the
    bytes 0, 1, 2 of the first row, where the bytes at offset
    [3 * (width * 1 + 0) = 6] are 6, 7, 8. *)
Theorem At_unpadded_second_row :
  let buf := [x00; x01; x02; x03; x04; x05; x06; x07; x08; x09; x0a; x0b] in
  exists f : rgb3.fRGB3 unit,
    rgb3.newFramerRGB3 false 2 2 buf None = ((Some f, None), [])
    /\ rgb3.width f = 0
    /\ rgb3.At f 0 1 = Some (color.mkRGBA x00 x01 x02 xff)
    /\ at_index buf (3 * (2 * 1 + 0)) = Some x06
    /\ at_index buf (3 * (2 * 1 + 0) + 1) = Some x07
    /\ at_index buf (3 * (2 * 1 + 0) + 2) = Some x08
    /\ rgb3.At f 0 1 <> Some (color.mkRGBA x06 x07 x08 xff).
Proof.
  intros buf. eexists. split; [vm_compute; reflexivity|].
  repeat split; try (vm_compute; reflexivity).
  vm_compute. discriminate.
Qed.

(** C2: a decode call on a buffer whose length is not the expected size
    returns the length error with the expected and the actual size and has
    called the release function, if there is one, exactly once; on a buffer
    of the expected size it returns a frame, has called nothing, and
    [Release] on that frame calls the release function that was supplied. *)
Theorem frameRGB3_length_check (Rel : Type) (size bw w h : Z) (buf : list byte)
    (rel : option Rel) :
  let calls_rel := match rel with Some r => [r] | None => [] end in
  (len buf <> size ->
     rgb3.frameRGB3 size bw w h buf rel
     = ((None, Some (WrongFrameLength size (len buf))), calls_rel))
  /\ (len buf = size ->
     exists f, rgb3.frameRGB3 size bw w h buf rel = ((Some f, None), [])
               /\ rgb3.frame f = buf /\ rgb3.release f = rel
               /\ rgb3.Release f = calls_rel)
  /\ (forall padded,
        rgb3.newFramerRGB3 padded w h buf rel
        = rgb3.frameRGB3 (fst (rgb3.geometryRGB3 padded w h))
                         (snd (rgb3.geometryRGB3 padded w h)) w h buf rel).
Proof.
  cbv zeta. unfold rgb3.frameRGB3. split; [|split].
  - intros Hne. apply Z.eqb_neq in Hne. rewrite Hne. reflexivity.
  - intros Heq. apply Z.eqb_eq in Heq. rewrite Heq. simpl.
    eexists. split; [reflexivity|]. repeat split.
  - intros padded. unfold rgb3.newFramerRGB3.
    destruct (rgb3.geometryRGB3 padded w h). reflexivity.
Qed.

Lemma frameRGB3_length_check_witness :
  rgb3.frameRGB3 3 0 1 1 [x00] (Some 7%nat)
  = ((None, Some (WrongFrameLength 3 (len [x00]))), [7%nat])
  /\ exists f, rgb3.frameRGB3 3 0 1 1 [x00; x01; x02] (Some 7%nat) = ((Some f, None), [])
               /\ rgb3.frame f = [x00; x01; x02] /\ rgb3.release f = Some 7%nat
               /\ rgb3.Release f = [7%nat].
Proof.
  split.
  - apply (frameRGB3_length_check nat 3 0 1 1 [x00] (Some 7%nat)).
    vm_compute. discriminate.
  - apply (frameRGB3_length_check nat 3 0 1 1 [x00; x01; x02] (Some 7%nat)).
    vm_compute. reflexivity.
Defined.

(** ** Match and canFit *)

(** C4: on [uint32] values [canFit] holds exactly for a fixed size met
    exactly, or for a value inside the range that lies a whole number of
    steps above the minimum; the three examples; and [Match] holds exactly
    when width and height both fit their range. *)
Theorem canFit_spec (min max step val : Z) :
  GoInt.is_uint32 min -> GoInt.is_uint32 max ->
  GoInt.is_uint32 step -> GoInt.is_uint32 val ->
  (canFit min max step val = true <->
     (min = max /\ step = 0 /\ val = min)
     \/ (step <> 0 /\ min <= val <= max /\ (val - min) mod step = 0))
  /\ canFit 100 100 0 100 = true
  /\ canFit 100 200 10 105 = false
  /\ canFit 100 200 10 110 = true
  /\ (forall fs w h,
        Match fs w h = true <->
          canFit (MinWidth fs) (MaxWidth fs) (StepWidth fs) (GoInt.to_uint32 w) = true
          /\ canFit (MinHeight fs) (MaxHeight fs) (StepHeight fs) (GoInt.to_uint32 h) = true).
Proof.
  unfold GoInt.is_uint32. intros Hmin Hmax Hstep Hval.
  split; [|split; [reflexivity|split; [reflexivity|split; [reflexivity|]]];
           intros fs w h; unfold Match; apply andb_true_iff].
  unfold canFit.
  assert (Hsub : min <= val -> GoInt.sub32 val min = val - min).
  { intros Hle. unfold GoInt.sub32. apply Z.mod_small. lia. }
  destruct (Z.eqb_spec min max) as [Emm|Emm];
    destruct (Z.eqb_spec step 0) as [Es|Es];
    destruct (Z.eqb_spec val min) as [Ev|Ev]; cbn [andb negb];
    try (split; [intros _; left; auto | reflexivity]);
    try (split; [discriminate | intros [[? [? ?]]|[? _]]; congruence]).
  all: rewrite !andb_true_iff, Z.geb_le, Z.leb_le, Z.eqb_eq.
  all: split.
  all: try (intros [[Hge Hle] Hmod]; right; rewrite Hsub in Hmod by lia;
            repeat split; assumption).
  all: intros [[? [? ?]]|[_ [Hr Hmod]]]; try congruence.
  all: rewrite Hsub by lia; repeat split; try lia; exact Hmod.
Qed.

Lemma canFit_spec_witness :
  canFit 100 200 10 110 = true <->
    (100 = 200 /\ 10 = 0 /\ 110 = 100)
    \/ (10 <> 0 /\ 100 <= 110 <= 200 /\ (110 - 100) mod 10 = 0).
Proof.
  apply (canFit_spec 100 200 10 110); unfold GoInt.is_uint32; lia.
Defined.

(** ** The pipeline *)

Section PipelineProps.

Import snapper.

Context {Frame : Type}.
Variable FourCCToPixelFormat : FourCC -> PixelFormat * option error.
Variable GetFramer :
  FourCC -> Z -> Z -> Z -> Z -> option (Framer Frame) * option error.

Local Abbreviation System := (System Frame).
Local Abbreviation Open_body := (Open_body GetFramer).
Local Abbreviation Open_negotiated := (Open_negotiated GetFramer).
Local Abbreviation Open := (Open FourCCToPixelFormat GetFramer).
Local Abbreviation resume := (resume GetFramer).
Local Abbreviation main_step := (main_step GetFramer).
Local Abbreviation step := (step FourCCToPixelFormat GetFramer).
Local Abbreviation run := (run FourCCToPixelFormat GetFramer).
Local Abbreviation reachable := (reachable FourCCToPixelFormat GetFramer).

Lemma fates_app (h1 h2 : list (Event Frame)) :
  fates (h1 ++ h2) = fates h1 ++ fates h2.
Proof. apply flat_map_app. Qed.

Lemma framer_requests_app (h1 h2 : list (Event Frame)) :
  framer_requests (h1 ++ h2) = framer_requests h1 ++ framer_requests h2.
Proof. apply flat_map_app. Qed.

Lemma run_app (l1 l2 : list Action) (s : System) :
  run (l1 ++ l2) s = match run l1 s with Some s' => run l2 s' | None => None end.
Proof.
  revert s. induction l1 as [|a l1 IH]; intros s; simpl; [reflexivity|].
  destruct (step a s); [apply IH|reflexivity].
Qed.

(** With a camera, the release functions a decoder has called are so many
    calls of [ReleaseFrame], and nothing else changes. *)
Lemma run_rels_with_cam (called : list relfn) (s : System) :
  cam (c s) <> None ->
  fold_left (fun s rel => run_rel rel s) called s
  = mkSystem (c s) (main s) (capture s)
      (history s ++ map (fun r => Called (ReleaseFrame (released_index r))) called)
      (fetched s) (panicked s).
Proof.
  revert s. induction called as [|r called IH]; intros s Hcam; simpl.
  - rewrite app_nil_r. destruct s; reflexivity.
  - rewrite IH.
    + destruct r as [i]. unfold run_rel, on_cam.
      destruct (cam (c s)); [|congruence]. simpl.
      rewrite <- app_assoc. reflexivity.
    + destruct r as [i]. unfold run_rel, on_cam.
      destruct (cam (c s)) eqn:E; [|congruence]. simpl. congruence.
Qed.

(** *** What one call of [Open] does *)

(** Reduction of the field updates; call by need, so that the state is
    not copied once per field at every update. *)
Ltac sys_red :=
  lazy beta iota zeta delta
    [snapper.Open_body snapper.Open_negotiated Open_start Open_deferred
     Close_enter Close_finish Close_receive close_stream on_cam return_Open
     return_Close return_Snap emit set_cam set_stop set_stream set_framer
     set_main set_capture panic make count_fetch cam Timeout Buffers framer
     stop stream c main capture history fetched panicked cap buffered closed
     negb].

Ltac sys_red_in H :=
  lazy beta iota zeta delta
    [snapper.Open_body snapper.Open_negotiated Open_start Open_deferred
     Close_enter Close_finish Close_receive close_stream on_cam return_Open
     return_Close return_Snap emit set_cam set_stop set_stream set_framer
     set_main set_capture panic make count_fetch cam Timeout Buffers framer
     stop stream c main capture history fetched panicked cap buffered closed
     negb] in H.

Ltac no_event :=
  cbn; intuition (try discriminate);
  repeat match goal with
         | H : _ \/ _ |- _ => destruct H
         | H : _ = _ |- _ => discriminate H
         | H : False |- _ => destruct H
         end.

Lemma Open_body_outcome (device : string) (format : FourCC) (w h : Z)
    (pf : PixelFormat) (ans : OpenAnswers) (s : System) :
  panicked s = false ->
  Open_outcome device ans s (Open_body device format w h pf ans s).
Proof.
  intros Hp.
  destruct (open_ans ans) as [cam0|e] eqn:Hopen.
  2: { eapply refused; [eassumption|]. unfold snapper.Open_body. rewrite Hopen.
       reflexivity. }
  unfold snapper.Open_body. rewrite Hopen.
  destruct s as [[cam1 tmo bufs fr st sm] m cp hist fet pan].
  cbn in Hp. subst pan.
  destruct (setformat_ans ans) as [[[[[npf nw] nh] stride] size] err].
  unfold snapper.Open_negotiated.
  destruct (has_format pf (formats_ans ans));
    [destruct (existsb (fun value => Match value w h) (sizes_ans ans));
     [destruct err as [e|];
      [|destruct (negb (npf =? pf) || negb (w =? GoInt.of_uint32 nw)
                  || negb (h =? GoInt.of_uint32 nh));
        (destruct (snd (GetFramer format w h (GoInt.of_uint32 stride)
                                  (GoInt.of_uint32 size))) as [e|];
         [|unfold Open_start; destruct (start_ans ans) as [e|]])]|]|];
    sys_red.
  all: first
    [ eapply rolled_back with (cam0 := cam0);
      [ exact Hopen
      | unfold rolling_back; cbn; repeat split; congruence
      | cbn; rewrite <- !app_assoc; reflexivity
      | reflexivity
      | no_event
      | no_event
      | intros r; no_event
      | reflexivity
      | reflexivity ]
    | eapply started with (cam0 := cam0);
      [ exact Hopen
      | reflexivity
      | reflexivity
      | reflexivity
      | reflexivity
      | reflexivity
      | cbn; f_equal; rewrite <- !app_assoc; reflexivity
      | reflexivity
      | intros r; no_event
      | reflexivity
      | reflexivity ] ].
Qed.

(** *** The invariant *)

Ltac fld :=
  cbn [return_Open return_Close return_Snap emit set_cam set_stop set_stream
       set_framer set_main set_capture panic count_fetch cam Timeout Buffers
       framer stop stream c main capture history fetched panicked cap buffered
       closed fst snd].

Ltac fld_in H :=
  cbn [return_Open return_Close return_Snap emit set_cam set_stop set_stream
       set_framer set_main set_capture panic count_fetch cam Timeout Buffers
       framer stop stream c main capture history fetched panicked cap buffered
       closed fst snd] in H.

Ltac fates_simpl :=
  rewrite ?fates_app; cbn [fates flat_map app]; rewrite ?app_nil_r.

Lemma Inv_fresh (timeout buffers : Z) : Inv (@fresh Frame timeout buffers).
Proof.
  constructor; cbn; try discriminate; try constructor; auto.
Qed.

Lemma dead_no_pending (s : System) : capture_alive s = false -> pending s = [].
Proof. unfold capture_alive, pending. destruct (capture s); congruence. Qed.

(** A change that touches neither the camera, the channels, the capture
    goroutine nor the fates keeps the invariant, if [Close] is not
    entered by it. *)
Lemma Inv_same_pipeline (s s' : System) :
  Inv s ->
  cam (c s') = cam (c s) -> stream (c s') = stream (c s) ->
  stop (c s') = stop (c s) -> capture s' = capture s ->
  fetched s' = fetched s -> fates (history s') = fates (history s) ->
  (in_Close (main s') = true -> cam (c s) <> None) ->
  Inv s'.
Proof.
  intros [Ha Hc Hi Hs Hn Hb] Ecam Estream Estop Ecap Efet Efat Hmain.
  constructor; unfold capture_alive, stream_open, pending in *;
    rewrite ?Ecam, ?Estream, ?Estop, ?Ecap, ?Efet, ?Efat; auto.
Qed.

Lemma Open_body_Inv (device : string) (format : FourCC) (w h : Z)
    (pf : PixelFormat) (ans : OpenAnswers) (s : System) :
  Inv (set_main Idle s) -> panicked s = false -> capture_alive s = false ->
  Inv (Open_body device format w h pf ans s).
Proof.
  intros HI Hp Hdead.
  pose proof (dead_no_pending s Hdead) as Hpend.
  destruct (Open_body_outcome device format w h pf ans s Hp)
    as [e Hans ->
       | e cam0 h' Hans [Hm [Hp' [Hcam [Hstop Hstream]]]] Hh Hf _ _ _ Hcap Hfet
       | cam0 h' Hans Hm Hp' Hcam Hstop Hstream Hh Hf _ Hcap Hfet].
  - apply (Inv_same_pipeline (set_main Idle s)); try reflexivity;
      [assumption| |discriminate].
    fld. fates_simpl. reflexivity.
  - destruct HI as [Ha Hc Hi Hs Hn Hb]. cbn in Ha, Hc, Hs, Hn, Hb.
    constructor; unfold capture_alive, stream_open, pending in *;
      rewrite ?Hcap, ?Hfet, ?Hh, ?fates_app, ?Hf, ?app_nil_r, ?Hstream, ?Hstop;
      auto; try congruence.
    intros ch Hch. inversion Hch. reflexivity.
  - destruct HI as [Ha Hc Hi Hs Hn Hb]. cbn in Ha, Hc, Hs, Hn, Hb.
    unfold pending in Hn, Hb; cbn in Hn, Hb; fold (pending s) in Hn, Hb.
    rewrite Hpend, app_nil_r in Hn, Hb.
    constructor; unfold capture_alive, stream_open, pending in *;
      rewrite ?Hcap, ?Hfet, ?Hh, ?fates_app, ?Hf, ?Hm, ?Hcam, ?Hstream, ?Hstop;
      cbn; rewrite ?app_nil_r; auto; try congruence; try discriminate.
    + intros _. split; [discriminate|reflexivity].
    + intros ch Hch. inversion Hch. reflexivity.
Qed.

Lemma on_cam_with_cam (call : Call) (s : System) (w0 : Webcam) :
  cam (c s) = Some w0 -> on_cam call s = emit (Called call) s.
Proof. intros E. unfold on_cam. now rewrite E. Qed.

Lemma Close_finish_with_cam (s : System) (w0 : Webcam) :
  cam (c s) = Some w0 ->
  Close_finish s
  = mkSystem (mkSnapper None (Timeout (c s)) (Buffers (c s)) (framer (c s))
                        (stop (c s)) (stream (c s)))
             (main s) (capture s)
             (history s ++ [Called StopStreaming; Called webcam_Close])
             (fetched s) (panicked s).
Proof.
  intros E. unfold Close_finish.
  rewrite (on_cam_with_cam StopStreaming s w0 E).
  rewrite (on_cam_with_cam webcam_Close _ w0) by exact E.
  unfold set_cam, emit. fld. rewrite <- app_assoc. reflexivity.
Qed.

Lemma alive_or_dead (s : System) :
  Inv s -> stream_open s = false \/ cam (c s) = None -> capture_alive s = false.
Proof.
  intros HI Hor. destruct (capture_alive s) eqn:Ha; [|reflexivity].
  destruct (inv_alive s HI Ha) as [Hcam Hopen]. destruct Hor; congruence.
Qed.

Ltac inv_fields :=
  constructor;
  unfold capture_alive, stream_open, pending, in_Close in *; fld;
  fates_simpl; auto; try congruence; try discriminate.

Lemma Inv_step (a : Action) (s s' : System) :
  Inv s -> step a s = Some s' -> panicked s' = false -> Inv s'.
Proof.
  intros HI Hstep Hp'. unfold snapper.step in Hstep.
  destruct (panicked s) eqn:Hp; [discriminate|].
  destruct a.
  - (* Open *)
    destruct (main s) eqn:Hm; try discriminate.
    inversion Hstep; subst s'; clear Hstep.
    unfold snapper.Open in *.
    destruct (FourCCToPixelFormat format) as [pf [e|]].
    + apply (Inv_same_pipeline s); try reflexivity; [assumption| |discriminate].
      fld. fates_simpl. reflexivity.
    + unfold Close_enter in *. destruct (cam (c s)) eqn:Hcam.
      * apply (Inv_same_pipeline s); try reflexivity; [assumption|congruence].
      * apply Open_body_Inv; [|assumption|apply alive_or_dead; auto].
        apply (Inv_same_pipeline s); try reflexivity; [assumption|discriminate].
  - (* Snap *)
    destruct (main s) eqn:Hm; try discriminate.
    inversion Hstep; subst s'; clear Hstep.
    apply (Inv_same_pipeline s); try reflexivity; [assumption|discriminate].
  - (* Close *)
    destruct (main s) eqn:Hm; try discriminate.
    inversion Hstep; subst s'; clear Hstep.
    unfold Close, Close_enter in *. destruct (cam (c s)) eqn:Hcam.
    + apply (Inv_same_pipeline s); try reflexivity; [assumption|congruence].
    + apply (Inv_same_pipeline s); try reflexivity; [assumption| |discriminate].
      fld. fates_simpl. reflexivity.
  - (* the application goroutine goes on *)
    unfold snapper.main_step in Hstep. destruct (main s) eqn:Hm; try discriminate.
    + destruct (stream (c s)) as [ch|] eqn:Hs; [|discriminate].
      destruct (closed ch) eqn:Hc; [|discriminate].
      inversion Hstep; subst s'; clear Hstep.
      apply (Inv_same_pipeline s); try reflexivity; [assumption| |discriminate].
      fld. fates_simpl. reflexivity.
    + unfold Close_send in Hstep. destruct (stop (c s)) as [ch|] eqn:Hs; [|discriminate].
      destruct (closed ch) eqn:Hc.
      { inversion Hstep; subst s'. discriminate. }
      destruct (buffered ch <? cap ch)%nat; [|discriminate].
      inversion Hstep; subst s'; clear Hstep.
      pose proof (inv_in_close s HI) as Hi. rewrite Hm in Hi.
      destruct HI as [Ha Hcl _ Hst Hn Hb]. inv_fields.
      intros ch' Hch'. inversion Hch'. reflexivity.
    + destruct (stream (c s)) as [ch|] eqn:Hs; [|discriminate].
      destruct (closed ch) eqn:Hc; [|discriminate].
      inversion Hstep; subst s'; clear Hstep.
      assert (Hdead : capture_alive s = false).
      { apply alive_or_dead; [assumption|]. left. unfold stream_open.
        rewrite Hs, Hc. reflexivity. }
      pose proof (dead_no_pending s Hdead) as Hpend.
      assert (Hcam : cam (c s) <> None).
      { apply (inv_in_close s HI). rewrite Hm. reflexivity. }
      destruct (cam (c s)) as [w0|] eqn:E; [|congruence].
      rewrite (Close_finish_with_cam s w0 E) in *.
      set (s2 := mkSystem _ _ _ _ _ _) in *.
      assert (HI2 : Inv (set_main Idle s2)).
      { subst s2. destruct HI as [Ha Hcl _ Hst Hn Hb]. inv_fields.
        intros _. rewrite Hs, Hc. reflexivity. }
      assert (Hp2 : panicked s2 = false) by exact Hp.
      assert (Hd2 : capture_alive s2 = false) by exact Hdead.
      destruct k as [|device format w h pf ans|ret]; unfold snapper.resume.
      * apply (Inv_same_pipeline (set_main Idle s2));
          try reflexivity; [assumption| |discriminate].
        fld. fates_simpl. reflexivity.
      * apply Open_body_Inv; assumption.
      * apply (Inv_same_pipeline (set_main Idle s2));
          try reflexivity; [assumption| |discriminate].
        fld. fates_simpl. reflexivity.
  - (* capture waits for a frame *)
    destruct (capture s) eqn:Hcap; try discriminate.
    inversion Hstep; subst s'; clear Hstep.
    assert (Halive : capture_alive s = true) by (unfold capture_alive; now rewrite Hcap).
    destruct (inv_alive s HI Halive) as [Hcam Hopen].
    destruct (cam (c s)) as [w0|] eqn:E; [|congruence].
    unfold capture_wait in *. rewrite (on_cam_with_cam _ s w0 E) in *.
    fld_in Hp'. fld. rewrite Hp in *.
    destruct a as [|e|[[fr ix]|e]].
    + apply (Inv_same_pipeline s); try reflexivity; [assumption| |congruence].
      fld. fates_simpl. reflexivity.
    + discriminate Hp'.
    + rewrite (on_cam_with_cam _ _ w0) in * by exact E.
      destruct HI as [Ha Hcl Hi Hst Hn Hb].
      unfold pending in Hn, Hb. rewrite Hcap, app_nil_r in Hn, Hb.
      unfold count_fetch. inv_fields.
      * apply NoDup_app; [assumption|repeat constructor; intros []|].
        intros n Hin [<-|[]].
        rewrite Forall_forall in Hb. specialize (Hb _ Hin). lia.
      * apply Forall_app. split; [|repeat constructor].
        eapply Forall_impl; [|exact Hb]. cbn. intros; lia.
    + rewrite (on_cam_with_cam _ _ w0) in * by exact E. discriminate Hp'.
  - (* select: send *)
    destruct (capture s) eqn:Hcap; try discriminate.
    destruct (send_ready s) eqn:Hready; [|discriminate].
    inversion Hstep; subst s'; clear Hstep.
    assert (Halive : capture_alive s = true) by (unfold capture_alive; now rewrite Hcap).
    destruct (inv_alive s HI Halive) as [Hcam Hopen].
    destruct (cam (c s)) as [w0|] eqn:E; [|congruence].
    unfold select_send, stream_open, send_ready, receiver_parked in *.
    destruct (stream (c s)) as [ch|] eqn:Hs; [|discriminate].
    destruct (closed ch) eqn:Hc; [discriminate|].
    destruct HI as [Ha Hcl Hi Hst Hn Hb].
    unfold pending in Hn, Hb. rewrite Hcap in Hn, Hb.
    destruct (main s) eqn:Hm; try discriminate.
    + unfold Snap_received in *. fld_in Hp'. fld.
      destruct (framer (c s)) as [fr|]; [|discriminate].
      destruct (fr (frame got) (Some (ReleaseIndex (index got)))) as [r called].
      rewrite run_rels_with_cam in * by (fld; congruence).
      assert (Hf : fates (map (fun r0 : relfn =>
                     @Called Frame (ReleaseFrame (released_index r0))) called) = []).
      { clear. induction called; [reflexivity|assumption]. }
      inv_fields; rewrite ?Hf, ?app_nil_r; auto.
    + unfold Close_receive. rewrite (on_cam_with_cam _ _ w0) in * by exact E.
      inv_fields.
  - (* select: stop *)
    destruct (capture s) eqn:Hcap; try discriminate.
    destruct (stop_ready s) eqn:Hready; [|discriminate].
    inversion Hstep; subst s'; clear Hstep.
    assert (Halive : capture_alive s = true) by (unfold capture_alive; now rewrite Hcap).
    destruct (inv_alive s HI Halive) as [Hcam Hopen].
    destruct (cam (c s)) as [w0|] eqn:E; [|congruence].
    unfold select_stop, stop_ready, stream_open in *.
    destruct (stop (c s)) as [ch|] eqn:Hst'; [|discriminate].
    destruct (stream (c s)) as [ch2|] eqn:Hs; [|discriminate].
    destruct (closed ch2) eqn:Hc; [discriminate|].
    rewrite (on_cam_with_cam _ _ w0) in * by exact E.
    unfold close_stream in *. fld_in Hp'. fld. rewrite Hs in *. fld_in Hp'. fld.
    rewrite Hc in *.
    destruct HI as [Ha Hcl Hi Hst Hn Hb].
    unfold pending in Hn, Hb. rewrite Hcap in Hn, Hb.
    inv_fields.
    intros ch0 Hch0. inversion Hch0. fld. eauto.
  - (* select: default *)
    destruct (capture s) eqn:Hcap; try discriminate.
    destruct (send_ready s || stop_ready s) eqn:Hready; [discriminate|].
    inversion Hstep; subst s'; clear Hstep.
    assert (Halive : capture_alive s = true) by (unfold capture_alive; now rewrite Hcap).
    destruct (inv_alive s HI Halive) as [Hcam Hopen].
    destruct (cam (c s)) as [w0|] eqn:E; [|congruence].
    unfold select_default in *. rewrite (on_cam_with_cam _ _ w0) in * by exact E.
    destruct HI as [Ha Hcl Hi Hst Hn Hb].
    unfold pending in Hn, Hb. rewrite Hcap in Hn, Hb.
    inv_fields.
Qed.

Lemma step_not_panicked (a : Action) (s s' : System) :
  step a s = Some s' -> panicked s = false.
Proof.
  unfold snapper.step. destruct (panicked s); [discriminate|reflexivity].
Qed.

Lemma reachable_Inv (s : System) :
  reachable s -> panicked s = false -> Inv s.
Proof.
  induction 1 as [timeout buffers|a s s' Hr IH Hstep]; intros Hp.
  - apply Inv_fresh.
  - eapply Inv_step; eauto. apply IH. eapply step_not_panicked; eauto.
Qed.

Lemma reachable_run (acts : list Action) (s s' : System) :
  reachable s -> run acts s = Some s' -> reachable s'.
Proof.
  revert s. induction acts as [|a acts IH]; intros s Hr Hrun; simpl in Hrun.
  - inversion Hrun; subst; assumption.
  - destruct (step a s) as [s1|] eqn:Hs; [|discriminate].
    eapply IH; [|eassumption]. eapply reach_step; eassumption.
Qed.

(** *** The rollback of a failed [Open] *)

Lemma rollback_run (ret : error) (s : System) :
  rolling_back ret s ->
  run [MainStep; MainStep] s
  = Some (mkSystem
            (mkSnapper None (Timeout (c s)) (Buffers (c s)) (framer (c s))
                       (Some (mkchan 1 1 false)) (Some (mkchan 0 0 true)))
            Idle (capture s)
            (history s ++ [Called StopStreaming; Called webcam_Close;
                           Returned (OpenRet (Some ret))])
            (fetched s) false).
Proof.
  intros [Hm [Hp [Hcam [Hstop Hstream]]]].
  destruct s as [[cam1 tmo bufs fr st sm] m cp hist fet pan].
  cbn in Hm, Hp, Hcam, Hstop, Hstream. subst m pan st sm.
  destruct cam1 as [w0|]; [|congruence].
  cbn. sys_red. rewrite <- ?app_assoc. reflexivity.
Qed.

(** While the capture goroutine does not run and the application is
    inside a call, the application goroutine is the only one to move. *)
Lemma only_main_moves (a : Action) (s s' : System) :
  capture_alive s = false -> main s <> Idle ->
  step a s = Some s' -> a = MainStep.
Proof.
  unfold snapper.step, capture_alive. intros Hdead Hm.
  destruct (panicked s); [discriminate|].
  destruct a; try reflexivity;
    destruct (main s); try congruence; try discriminate;
    destruct (capture s); try discriminate.
Qed.

(** *** Fates *)

Lemma Fate_in_fates (h : list (Event Frame)) (n : nat) (f : fate) :
  In (Fate n f) h -> In n (fates h).
Proof.
  unfold fates. intros Hin. apply in_flat_map. exists (Fate n f).
  split; [assumption|left; reflexivity].
Qed.

Lemma one_fate (h : list (Event Frame)) (n : nat) (f f' : fate) :
  NoDup (fates h) -> In (Fate n f) h -> In (Fate n f') h -> f = f'.
Proof.
  induction h as [|e h IH]; intros Hnd Hf Hf'; [destruct Hf|].
  change (e :: h) with ([e] ++ h) in Hnd. rewrite fates_app in Hnd.
  pose proof (NoDup_app_remove_l _ _ Hnd) as Hnd'.
  destruct Hf as [->|Hf]; destruct Hf' as [Heq|Hf'].
  - congruence.
  - exfalso. cbn in Hnd. inversion Hnd as [|? ? Hnot _]; subst.
    apply Hnot. eapply Fate_in_fates; eassumption.
  - exfalso. subst e. cbn in Hnd. inversion Hnd as [|? ? Hnot _]; subst.
    apply Hnot. eapply Fate_in_fates; eassumption.
  - auto.
Qed.

(** *** Where [Close] returns *)

Lemma quiet_refl (s : System) : quiet s s.
Proof. exists []. split; [now rewrite app_nil_r|intros []]. Qed.

Lemma quiet_same (s s1 s2 : System) :
  history s2 = history s1 -> quiet s s1 -> quiet s s2.
Proof. intros E [evs [Hh Hn]]. exists evs. split; congruence. Qed.

Lemma quiet_emit (s s1 : System) (e : Event Frame) :
  e <> Returned CloseRet -> quiet s s1 -> quiet s (emit e s1).
Proof.
  intros He [evs [Hh Hn]]. exists (evs ++ [e]). split.
  - cbn. rewrite Hh, app_assoc. reflexivity.
  - rewrite in_app_iff. intros [Hin|[Heq|[]]]; [auto|congruence].
Qed.

Lemma quiet_on_cam (s s1 : System) (call : Call) :
  quiet s s1 -> quiet s (on_cam call s1).
Proof.
  intros Hq. unfold on_cam. destruct (cam (c s1)).
  - apply quiet_emit; [discriminate|assumption].
  - eapply quiet_same; [|eassumption]. reflexivity.
Qed.

Lemma quiet_run_rels (called : list relfn) (s s1 : System) :
  quiet s s1 -> quiet s (fold_left (fun s rel => run_rel rel s) called s1).
Proof.
  revert s1. induction called as [|[i] called IH]; intros s1 Hq; simpl.
  - assumption.
  - apply IH. apply quiet_on_cam. assumption.
Qed.

Lemma quiet_Open_body (device : string) (format : FourCC) (w h : Z)
    (pf : PixelFormat) (ans : OpenAnswers) (s s1 : System) :
  panicked s1 = false -> quiet s s1 ->
  quiet s (Open_body device format w h pf ans s1).
Proof.
  intros Hp [evs [Hh Hn]].
  destruct (Open_body_outcome device format w h pf ans s1 Hp)
    as [e Hans ->
       | e cam0 h' Hans _ Hh' _ _ _ Hret _ _
       | cam0 h' Hans _ _ _ _ _ Hh' _ Hret _ _].
  - unfold return_Open. eapply quiet_same; [reflexivity|].
    apply quiet_emit; [discriminate|]. apply quiet_emit; [discriminate|].
    exists evs. auto.
  - exists (evs ++ h'). split; [rewrite Hh', Hh, app_assoc; reflexivity|].
    rewrite in_app_iff. intros [Hin|Hin]; [auto|exact (Hret _ Hin)].
  - exists (evs ++ h' ++ [Returned (OpenRet None)]). split.
    + rewrite Hh', Hh, <- !app_assoc. reflexivity.
    + rewrite !in_app_iff.
      intros [Hin|[Hin|[Heq|[]]]]; [auto|exact (Hret _ Hin)|discriminate].
Qed.

Lemma quiet_not_returns (s s' : System) : quiet s s' -> ~ returns_Close s s'.
Proof.
  intros [evs [Hh Hn]] [h Hh']. rewrite Hh in Hh'.
  apply app_inv_head in Hh'. apply Hn. rewrite Hh', in_app_iff.
  right. left. reflexivity.
Qed.

Lemma quiet_set_main (s s1 : System) (m : main_pc) :
  quiet s s1 -> quiet s (set_main m s1).
Proof. apply quiet_same. reflexivity. Qed.

Lemma quiet_set_capture (s s1 : System) (p : capture_pc) :
  quiet s s1 -> quiet s (set_capture p s1).
Proof. apply quiet_same. reflexivity. Qed.

Lemma quiet_set_stop (s s1 : System) (v : option chan) :
  quiet s s1 -> quiet s (set_stop v s1).
Proof. apply quiet_same. reflexivity. Qed.

Lemma quiet_set_stream (s s1 : System) (v : option chan) :
  quiet s s1 -> quiet s (set_stream v s1).
Proof. apply quiet_same. reflexivity. Qed.

Lemma quiet_set_cam (s s1 : System) (v : option Webcam) :
  quiet s s1 -> quiet s (set_cam v s1).
Proof. apply quiet_same. reflexivity. Qed.

Lemma quiet_panic (s s1 : System) : quiet s s1 -> quiet s (panic s1).
Proof. apply quiet_same. reflexivity. Qed.

Lemma quiet_count_fetch (s s1 : System) : quiet s s1 -> quiet s (count_fetch s1).
Proof. apply quiet_same. reflexivity. Qed.

Lemma quiet_close_stream (s s1 : System) :
  quiet s s1 -> quiet s (close_stream s1).
Proof.
  intros Hq. unfold close_stream. destruct (stream (c s1)) as [ch|].
  - destruct (closed ch); [apply quiet_panic|apply quiet_set_stream]; assumption.
  - apply quiet_panic. assumption.
Qed.

Ltac quiet_event := apply quiet_emit; [discriminate|].

Ltac quiet_steps :=
  repeat lazymatch goal with
    | |- quiet ?s ?s => apply quiet_refl
    | |- quiet _ (on_cam _ _) => apply quiet_on_cam
    | |- quiet _ (fold_left _ _ _) => apply quiet_run_rels
    | |- quiet _ (set_main _ _) => apply quiet_set_main
    | |- quiet _ (set_capture _ _) => apply quiet_set_capture
    | |- quiet _ (set_stop _ _) => apply quiet_set_stop
    | |- quiet _ (set_stream _ _) => apply quiet_set_stream
    | |- quiet _ (set_cam _ _) => apply quiet_set_cam
    | |- quiet _ (panic _) => apply quiet_panic
    | |- quiet _ (count_fetch _) => apply quiet_count_fetch
    | |- quiet _ (close_stream _) => apply quiet_close_stream
    | |- quiet _ (emit _ _) => quiet_event
    end.

(** In a step either no call of [Close] returns, or the pipeline is closed
    after it and the application is back in its own code. *)
Lemma step_quiet_or_closed (a : Action) (s s' : System) :
  Inv s -> step a s = Some s' ->
  quiet s s'
  \/ (cam (c s') = None /\ main s' = Idle
      /\ exists evs, history s' = history s ++ evs).
Proof.
  intros HI Hstep. pose proof (step_not_panicked _ _ _ Hstep) as Hp.
  unfold snapper.step in Hstep. rewrite Hp in Hstep.
  destruct a.
  - destruct (main s); try discriminate. inversion Hstep; subst s'.
    left.
    unfold snapper.Open. destruct (FourCCToPixelFormat format) as [pf [e|]].
    + unfold return_Open. quiet_steps.
    + unfold Close_enter. destruct (cam (c s)); [quiet_steps|].
      apply quiet_Open_body; [assumption|apply quiet_refl].
  - destruct (main s); try discriminate. inversion Hstep; subst s'.
    left. unfold Snap. quiet_steps.
  - destruct (main s); try discriminate. inversion Hstep; subst s'.
    unfold Close, Close_enter in *. destruct (cam (c s)) eqn:E.
    + left. quiet_steps.
    + right. split; [exact E|]. split; [reflexivity|]. eexists. reflexivity.
  - unfold snapper.main_step in Hstep. destruct (main s) eqn:Hm; try discriminate.
    + destruct (stream (c s)) as [ch|]; [|discriminate].
      destruct (closed ch); [|discriminate]. inversion Hstep; subst s'.
      left.
      unfold Snap_received, return_Snap. quiet_steps.
    + unfold Close_send in Hstep. destruct (stop (c s)) as [ch|]; [|discriminate].
      destruct (closed ch).
      * inversion Hstep; subst s'.
        left. quiet_steps.
      * destruct (buffered ch <? cap ch)%nat; [|discriminate].
        inversion Hstep; subst s'.
        left. quiet_steps.
    + destruct (stream (c s)) as [ch|]; [|discriminate].
      destruct (closed ch); [|discriminate]. inversion Hstep; subst s'.
      assert (Hcam : cam (c s) <> None).
      { apply (inv_in_close s HI). rewrite Hm. reflexivity. }
      destruct (cam (c s)) as [w0|] eqn:E; [|congruence].
      destruct k as [|device format w h pf ans|ret]; unfold snapper.resume in *.
      * right. split; [reflexivity|]. split; [reflexivity|].
        rewrite (Close_finish_with_cam s w0 E). fld. rewrite <- app_assoc.
        eexists. reflexivity.
      * left.
        apply quiet_Open_body.
        -- rewrite (Close_finish_with_cam s w0 E). exact Hp.
        -- unfold Close_finish. quiet_steps.
      * left.
        unfold return_Open, Close_finish. quiet_steps.
  - destruct (capture s); try discriminate. inversion Hstep; subst s'.
    left.
    unfold capture_wait. destruct (panicked (on_cam _ s)); [quiet_steps|].
    destruct a as [|e|[[fr ix]|e]]; quiet_steps.
  - destruct (capture s); try discriminate.
    destruct (send_ready s); [|discriminate]. inversion Hstep; subst s'.
    left.
    unfold select_send. destruct (stream (c s)) as [ch|]; [|quiet_steps].
    destruct (closed ch); [quiet_steps|].
    destruct (main s); quiet_steps.
    + unfold Snap_received. fld. destruct (framer (c s)) as [fr|]; [|quiet_steps].
      destruct (fr (frame got) (Some (ReleaseIndex (index got)))) as [r called].
      unfold return_Snap. quiet_steps.
    + unfold Close_receive. quiet_steps.
  - destruct (capture s); try discriminate.
    destruct (stop_ready s); [|discriminate]. inversion Hstep; subst s'.
    left.
    unfold select_stop. destruct (stop (c s)); quiet_steps.
  - destruct (capture s); try discriminate.
    destruct (send_ready s || stop_ready s); [discriminate|].
    inversion Hstep; subst s'.
    left.
    unfold select_default. quiet_steps.
Qed.

(** A step in which a call of [Close] returns ends with the pipeline
    closed and the application back in its own code. *)
Lemma Close_returns_closed (a : Action) (s s' : System) :
  Inv s -> step a s = Some s' -> returns_Close s s' ->
  cam (c s') = None /\ main s' = Idle.
Proof.
  intros HI Hstep Hret.
  destruct (step_quiet_or_closed a s s' HI Hstep) as [Hq|[Hc [Hm _]]]; [|auto].
  destruct (quiet_not_returns s s' Hq Hret).
Qed.

(** The history only grows. *)
Lemma step_extends (a : Action) (s s' : System) :
  Inv s -> step a s = Some s' -> exists evs, history s' = history s ++ evs.
Proof.
  intros HI Hstep.
  destruct (step_quiet_or_closed a s s' HI Hstep) as [[evs [Hh _]]|[_ [_ Hh]]];
    eauto.
Qed.

Lemma run_extends (acts : list Action) (s s' : System) :
  reachable s -> run acts s = Some s' -> exists evs, history s' = history s ++ evs.
Proof.
  revert s. induction acts as [|a acts IH]; intros s Hr Hrun; simpl in Hrun.
  - inversion Hrun; subst. exists []. now rewrite app_nil_r.
  - destruct (step a s) as [s1|] eqn:Hs; [|discriminate].
    pose proof (step_not_panicked _ _ _ Hs) as Hp.
    destruct (step_extends a s s1 (reachable_Inv s Hr Hp) Hs) as [evs1 H1].
    destruct (IH s1 (reach_step _ _ a s s1 Hr Hs) Hrun) as [evs2 H2].
    exists (evs1 ++ evs2). rewrite H2, H1, app_assoc. reflexivity.
Qed.

(** *** capture *)

(** C6: when the capture goroutine is at its [select] with a fetched
    buffer, no goroutine waits to receive from [c.stream] and [c.stop] is
    empty, the only branch it can take releases the buffer to the driver
    and goes back to the top of the loop; a fetch dropped this way is
    never handed to [Snap] later in the run; and as long as it runs the
    capture goroutine can always move, whatever the application does. *)
Theorem capture_drops_without_receiver :
  (forall (s : System) (got : snap) (n : nat),
      reachable s -> panicked s = false ->
      capture s = AtSelect got n ->
      receiver_parked s = false -> stop_ready s = false ->
      step SelectSend s = None /\ step SelectStop s = None
      /\ step SelectDefault s
         = Some (set_capture AtWait
                   (emit (Fate n Drop)
                      (emit (Called (ReleaseFrame (index got))) s))))
  /\ (forall (s s' : System) (acts : list Action) (n : nat),
        reachable s -> In (Fate n Drop) (history s) ->
        run acts s = Some s' -> panicked s' = false ->
        ~ In (Fate n ToSnap) (history s')
        /\ forall got, capture s' <> AtSelect got n)
  /\ (forall s : System,
        panicked s = false -> capture_alive s = true ->
        exists a s', is_capture_action a = true /\ step a s = Some s').
Proof.
  split; [|split].
  - intros s got n Hr Hp Hcap Hpark Hstop.
    pose proof (reachable_Inv s Hr Hp) as HI.
    assert (Halive : capture_alive s = true)
      by (unfold capture_alive; now rewrite Hcap).
    destruct (inv_alive s HI Halive) as [Hcam Hopen].
    destruct (cam (c s)) as [w0|] eqn:E; [|congruence].
    assert (Hsend : send_ready s = false).
    { unfold send_ready, stream_open in *.
      destruct (stream (c s)) as [ch|]; [|reflexivity].
      destruct (closed ch); [discriminate|]. exact Hpark. }
    unfold snapper.step. rewrite Hp, Hcap, Hsend, Hstop. cbn [orb].
    repeat split. unfold select_default.
    rewrite (on_cam_with_cam _ s w0 E). reflexivity.
  - intros s s' acts n Hr Hdrop Hrun Hp'.
    pose proof (reachable_run acts s s' Hr Hrun) as Hr'.
    pose proof (reachable_Inv s' Hr' Hp') as [_ _ _ _ Hn _].
    destruct (run_extends acts s s' Hr Hrun) as [evs Hh].
    assert (Hdrop' : In (Fate n Drop) (history s')).
    { rewrite Hh. apply in_or_app. left. assumption. }
    split.
    + intros Hsnap.
      pose proof (NoDup_app_remove_r _ _ Hn) as Hn'.
      pose proof (one_fate _ n Drop ToSnap Hn' Hdrop' Hsnap). discriminate.
    + intros got Hcap. unfold pending in Hn. rewrite Hcap in Hn.
      apply NoDup_remove_2 in Hn. apply Hn. rewrite app_nil_r.
      eapply Fate_in_fates. eassumption.
  - intros s Hp Halive. unfold capture_alive in Halive.
    destruct (capture s) as [| |got n|] eqn:Hcap; try discriminate.
    + exists (CaptureWait TimedOut). eexists. split; [reflexivity|].
      unfold snapper.step. rewrite Hp, Hcap. reflexivity.
    + destruct (send_ready s) eqn:Hsend.
      * exists SelectSend. eexists. split; [reflexivity|].
        unfold snapper.step. rewrite Hp, Hcap, Hsend. reflexivity.
      * destruct (stop_ready s) eqn:Hstop.
        -- exists SelectStop. eexists. split; [reflexivity|].
           unfold snapper.step. rewrite Hp, Hcap, Hstop. reflexivity.
        -- exists SelectDefault. eexists. split; [reflexivity|].
           unfold snapper.step. rewrite Hp, Hcap, Hsend, Hstop. reflexivity.
Qed.

(** *** Open *)

(** C3, as the code has it: once [SetImageFormat] has succeeded, [Open]
    asks the registry for a decoder with the format code and the width
    and height of its own arguments and with the stride and the size the
    driver returned, stores what it gets in [c.framer], reports a
    difference between the request and the driver's answer on standard
    output, and returns the error of the registry, if any, after the
    rollback. *)
Theorem Open_resolves_decoder (device : string) (format : FourCC) (w h : Z)
    (pf : PixelFormat) (ans : OpenAnswers) (s : System) (cam0 : Webcam)
    (npf : PixelFormat) (nw nh stride size : Z) :
  panicked s = false ->
  open_ans ans = inl cam0 ->
  has_format pf (formats_ans ans) = true ->
  existsb (fun value => Match value w h) (sizes_ans ans) = true ->
  setformat_ans ans = (npf, nw, nh, stride, size, None) ->
  let s1 := Open_body device format w h pf ans s in
  let r := GetFramer format w h (GoInt.of_uint32 stride) (GoInt.of_uint32 size) in
  framer_requests (history s1)
  = framer_requests (history s)
    ++ [(format, w, h, GoInt.of_uint32 stride, GoInt.of_uint32 size)]
  /\ framer (c s1) = fst r
  /\ (npf <> pf \/ w <> GoInt.of_uint32 nw \/ h <> GoInt.of_uint32 nh ->
      In (Called (Printf_asked pf w h npf nw nh)) (history s1))
  /\ (forall e, snd r = Some e ->
        rolling_back e s1
        /\ exists s3, run [MainStep; MainStep] s1 = Some s3
                      /\ main s3 = Idle
                      /\ history s3
                         = history s1 ++ [Called StopStreaming; Called webcam_Close;
                                          Returned (OpenRet (Some e))]).
Proof.
  intros Hp Hopen Hfmt Hsize Hset. cbv zeta.
  assert (Hroll : forall e,
             rolling_back e (Open_body device format w h pf ans s) ->
             exists s3, run [MainStep; MainStep] (Open_body device format w h pf ans s)
                        = Some s3
                        /\ main s3 = Idle
                        /\ history s3
                           = history (Open_body device format w h pf ans s)
                             ++ [Called StopStreaming; Called webcam_Close;
                                 Returned (OpenRet (Some e))]).
  { intros e Hrb. eexists. split; [apply rollback_run; exact Hrb|].
    split; reflexivity. }
  revert Hroll.
  unfold snapper.Open_body. rewrite Hopen, Hfmt, Hsize, Hset. cbn [negb].
  unfold snapper.Open_negotiated.
  destruct s as [[cam1 tmo bufs fr st sm] m cp hist fet pan].
  cbn in Hp. subst pan.
  set (differ := negb (npf =? pf) || negb (w =? GoInt.of_uint32 nw)
                 || negb (h =? GoInt.of_uint32 nh)).
  assert (Hdiffer : npf <> pf \/ w <> GoInt.of_uint32 nw \/ h <> GoInt.of_uint32 nh ->
                    differ = true).
  { unfold differ. rewrite !orb_true_iff, !negb_true_iff, !Z.eqb_neq. tauto. }
  destruct differ;
    destruct (snd (GetFramer format w h (GoInt.of_uint32 stride)
                             (GoInt.of_uint32 size))) as [e|] eqn:Herr;
    try (unfold Open_start; destruct (start_ans ans) as [e|]);
    sys_red; intros Hroll;
    (split; [rewrite !framer_requests_app; cbn [framer_requests flat_map app];
             rewrite ?app_nil_r; reflexivity|]);
    (split; [reflexivity|]);
    (split; [intros Hd; try (specialize (Hdiffer Hd); discriminate);
             rewrite !in_app_iff; cbn [In]; tauto|]);
    intros e' He'; try discriminate.
  all: inversion He'; subst e'.
  all: (split; [unfold rolling_back; cbn; repeat split; congruence|]).
  all: apply Hroll; unfold rolling_back; cbn; repeat split; congruence.
Qed.

(** C7, as the code has it: [Open] reaches the call of [webcam.Open] with
    no camera held, at once on a closed pipeline and after [Close] on an
    open one.  From there it ends in one of three ways.  If [webcam.Open]
    fails, the error is returned and still no camera is held.  If a later
    step fails, the deferred function has closed [c.stream], and only
    [c.stream]: [c.stop] is not closed, and no teardown call has been
    made yet; the [Close] it calls then sends on [c.stop], finds
    [c.stream] closed, stops the streaming, closes the camera and clears
    [c.cam], and [Open] returns the error.  Else [Open] succeeds. *)
Theorem Open_failure_leaves_closed :
  (forall (device : string) (format : FourCC) (w h : Z) (pf : PixelFormat)
          (ans : OpenAnswers) (s : System),
      panicked s = false -> cam (c s) = None ->
      let s1 := Open_body device format w h pf ans s in
      (exists e, open_ans ans = inr e
                 /\ s1 = return_Open (Some e) (emit (Called (webcam_Open device)) s)
                 /\ cam (c s1) = None)
      \/ (exists e s3,
             rolling_back e s1
             /\ (exists h', history s1 = history s ++ h'
                            /\ ~ In (Called StopStreaming) h'
                            /\ ~ In (Called webcam_Close) h')
             /\ run [MainStep; MainStep] s1 = Some s3
             /\ main s3 = Idle /\ cam (c s3) = None /\ panicked s3 = false
             /\ stream (c s3) = Some (mkchan 0 0 true)
             /\ stop (c s3) = Some (mkchan 1 1 false)
             /\ history s3
                = history s1 ++ [Called StopStreaming; Called webcam_Close;
                                 Returned (OpenRet (Some e))]
             /\ (capture_alive s = false ->
                 forall a s', step a s1 = Some s' -> a = MainStep))
      \/ (exists h', history s1 = (history s ++ h') ++ [Returned (OpenRet None)]
                     /\ main s1 = Idle /\ capture s1 = AtWait
                     /\ cam (c s1) <> None))
  /\ (forall (device : string) (format : FourCC) (w h : Z) (pf : PixelFormat)
             (ans : OpenAnswers) (s : System),
        panicked s = false -> main s = Idle -> cam (c s) = None ->
        FourCCToPixelFormat format = (pf, None) ->
        step (CallOpen device format w h ans) s
        = Some (Open_body device format w h pf ans s))
  /\ (forall (device : string) (format : FourCC) (w h : Z) (pf : PixelFormat)
             (ans : OpenAnswers) (s : System) (ch : chan),
        reachable s -> panicked s = false ->
        main s = InCloseRange (ToOpenBody device format w h pf ans) ->
        stream (c s) = Some ch -> closed ch = true ->
        step MainStep s
        = Some (Open_body device format w h pf ans (Close_finish s))
        /\ panicked (Close_finish s) = false
        /\ cam (c (Close_finish s)) = None).
Proof.
  split; [|split].
  - intros device format w h pf ans s Hp Hcam s1. subst s1.
    destruct (Open_body_outcome device format w h pf ans s Hp)
      as [e Hans Heq
         | e cam0 h' Hans Hrb Hh Hf Hstop Hclose _ Hcap Hfet
         | cam0 h' Hans Hm Hp' Hcam' _ _ Hh _ _ Hcap _].
    + left. exists e. split; [assumption|]. split; [assumption|].
      rewrite Heq. exact Hcam.
    + right. left. exists e. eexists.
      split; [exact Hrb|]. split; [exists h'; auto|].
      split; [apply rollback_run; exact Hrb|].
      repeat (split; [reflexivity|]).
      intros Hdead a s' Hstep.
      eapply only_main_moves; [| |exact Hstep].
      * unfold capture_alive in *. rewrite Hcap. exact Hdead.
      * destruct Hrb as [Hm _]. rewrite Hm. discriminate.
    + right. right. exists h'. repeat split; try assumption. congruence.
  - intros device format w h pf ans s Hp Hm Hcam Hpf.
    unfold snapper.step, snapper.Open, Close_enter.
    rewrite Hp, Hm, Hpf, Hcam. reflexivity.
  - intros device format w h pf ans s ch Hr Hp Hm Hs Hc.
    pose proof (reachable_Inv s Hr Hp) as HI.
    assert (Hcam : cam (c s) <> None).
    { apply (inv_in_close s HI). rewrite Hm. reflexivity. }
    destruct (cam (c s)) as [w0|] eqn:E; [|congruence].
    unfold snapper.step, snapper.main_step. rewrite Hp, Hm, Hs, Hc.
    split; [reflexivity|].
    rewrite (Close_finish_with_cam s w0 E). split; [exact Hp|reflexivity].
Qed.

(** *** Close *)

(** C8: [Close] on a closed pipeline returns at once, calls nothing and
    changes no field of the Snapper; and whenever a call of [Close]
    returns the pipeline is closed, so that a second [Close] right after
    it is such a call. *)
Theorem Close_idempotent :
  (forall s : System,
      panicked s = false -> main s = Idle -> cam (c s) = None ->
      step CallClose s = Some (return_Close s)
      /\ c (return_Close s) = c s
      /\ history (return_Close s) = history s ++ [Returned CloseRet]
      /\ capture (return_Close s) = capture s
      /\ main (return_Close s) = Idle
      /\ panicked (return_Close s) = false)
  /\ (forall (a : Action) (s s' : System),
        reachable s -> step a s = Some s' -> returns_Close s s' ->
        panicked s' = false ->
        cam (c s') = None /\ main s' = Idle
        /\ step CallClose s' = Some (return_Close s')
        /\ c (return_Close s') = c s'
        /\ history (return_Close s') = history s' ++ [Returned CloseRet]).
Proof.
  assert (Hnoop : forall s : System,
             panicked s = false -> main s = Idle -> cam (c s) = None ->
             step CallClose s = Some (return_Close s)).
  { intros s Hp Hm Hcam. unfold snapper.step, Close, Close_enter.
    rewrite Hp, Hm, Hcam. reflexivity. }
  split.
  - intros s Hp Hm Hcam. split; [apply Hnoop; assumption|].
    repeat split. exact Hp.
  - intros a s s' Hr Hstep Hret Hp'.
    pose proof (step_not_panicked _ _ _ Hstep) as Hp.
    destruct (Close_returns_closed a s s' (reachable_Inv s Hr Hp) Hstep Hret)
      as [Hcam Hm].
    split; [assumption|]. split; [assumption|].
    split; [apply Hnoop; assumption|]. split; reflexivity.
Qed.

(** *** Snap *)

(** C9, as the code has it: a [Snap] that finds [c.stream] closed returns
    the error and no frame; that is what every [Snap] finds on a closed
    pipeline whose [c.stream] has been made, and every return of [Close]
    leaves the pipeline closed; a [Snap] that receives a frame returns
    what the decoder in [c.framer] returns on the bytes of the frame and
    the release function of its index, and each call the decoder has made
    of a release function is a call of [ReleaseFrame] for the index. *)
Theorem Snap_results :
  (forall (s : System) (ch : chan),
      panicked s = false -> main s = InSnap ->
      stream (c s) = Some ch -> closed ch = true ->
      step MainStep s = Some (return_Snap (None, Some NoFrameReceived) s)
      /\ history (return_Snap (None, Some NoFrameReceived) s)
         = history s ++ [Returned (SnapRet None (Some NoFrameReceived))])
  /\ (forall s : System,
        reachable s -> panicked s = false -> main s = Idle ->
        cam (c s) = None -> stream (c s) <> None ->
        run [CallSnap; MainStep] s
        = Some (return_Snap (None, Some NoFrameReceived) (Snap s))
        /\ forall a s', step a (Snap s) = Some s' -> a = MainStep)
  /\ (forall (a : Action) (s s' : System),
        reachable s -> step a s = Some s' -> returns_Close s s' ->
        cam (c s') = None /\ main s' = Idle)
  /\ (forall (s : System) (got : snap) (n : nat) (fr : Framer Frame) (ch : chan),
        panicked s = false -> main s = InSnap ->
        capture s = AtSelect got n ->
        stream (c s) = Some ch -> closed ch = false ->
        framer (c s) = Some fr -> cam (c s) <> None ->
        let r := fr (frame got) (Some (ReleaseIndex (index got))) in
        exists s', step SelectSend s = Some s'
                   /\ main s' = Idle /\ capture s' = AtWait /\ c s' = c s
                   /\ history s'
                      = history s
                        ++ [Fate n ToSnap]
                        ++ map (fun rel => Called (ReleaseFrame (released_index rel)))
                               (snd r)
                        ++ [Returned (SnapRet (fst (fst r)) (snd (fst r)))])
  /\ (forall (s : System) (i : Z),
        cam (c s) <> None ->
        run_rel (ReleaseIndex i) s = emit (Called (ReleaseFrame i)) s).
Proof.
  split; [|split; [|split; [|split]]].
  - intros s ch Hp Hm Hs Hc. unfold snapper.step, snapper.main_step.
    rewrite Hp, Hm, Hs, Hc. split; reflexivity.
  - intros s Hr Hp Hm Hcam Hs.
    pose proof (reachable_Inv s Hr Hp) as HI.
    pose proof (inv_closed s HI Hcam) as Hclosed.
    assert (Hdead : capture_alive s = false) by (apply alive_or_dead; auto).
    unfold stream_open in Hclosed.
    destruct (stream (c s)) as [ch|] eqn:Es; [|congruence].
    destruct (closed ch) eqn:Ec; [|discriminate].
    split.
    + cbn [snapper.run]. unfold snapper.step at 1. rewrite Hp, Hm.
      unfold snapper.step, snapper.main_step, Snap. fld. rewrite Hp, Es, Ec.
      reflexivity.
    + intros a s' Hstep. eapply only_main_moves; [| |exact Hstep].
      * exact Hdead.
      * discriminate.
  - intros a s s' Hr Hstep Hret.
    pose proof (step_not_panicked _ _ _ Hstep) as Hp.
    exact (Close_returns_closed a s s' (reachable_Inv s Hr Hp) Hstep Hret).
  - intros s got n fr ch Hp Hm Hcap Hs Hc Hfr Hcam r. subst r.
    unfold snapper.step, send_ready, receiver_parked, select_send, Snap_received.
    rewrite Hp, Hcap, Hs, Hc, Hm. fld. rewrite Hfr.
    destruct (fr (frame got) (Some (ReleaseIndex (index got)))) as [r called].
    eexists. split; [reflexivity|].
    rewrite run_rels_with_cam by (fld; exact Hcam). fld.
    repeat split. rewrite <- !app_assoc. reflexivity.
  - intros s i Hcam. unfold run_rel, on_cam.
    destruct (cam (c s)); [reflexivity|congruence].
Qed.

End PipelineProps.

(** ** The pipeline on the example camera *)

Section Examples.

Import snapper.
Local Open Scope string_scope.

Local Abbreviation F2P := example.FourCCToPixelFormat.
Local Abbreviation GF := (example.GetFramer false).
Local Abbreviation RGB24 := example.V4L2_PIX_FMT_RGB24.

Lemma reachable_opened_at_select : reachable F2P GF example.opened_at_select.
Proof.
  apply (reachable_run F2P GF example.to_select init); [apply reach_fresh|].
  vm_compute. reflexivity.
Qed.

Lemma reachable_closed_after_failure :
  reachable F2P GF example.closed_after_failure.
Proof.
  apply (reachable_run F2P GF example.to_failure init); [apply reach_fresh|].
  vm_compute. reflexivity.
Qed.

Lemma capture_drops_without_receiver_witness :
  step F2P GF SelectSend example.opened_at_select = None
  /\ step F2P GF SelectStop example.opened_at_select = None
  /\ step F2P GF SelectDefault example.opened_at_select
     = Some (set_capture AtWait
               (emit (Fate 0 Drop)
                  (emit (Called (ReleaseFrame (index (mksnap example.twelve 3))))
                     example.opened_at_select))).
Proof.
  apply (proj1 (capture_drops_without_receiver F2P GF)
               example.opened_at_select (mksnap example.twelve 3) 0%nat).
  - apply reachable_opened_at_select.
  - vm_compute. reflexivity.
  - vm_compute. reflexivity.
  - vm_compute. reflexivity.
  - vm_compute. reflexivity.
Defined.

(** C3, as stated, fails: the driver answers the request for 640 by 480
    with 320 by 240, and the registry is asked for a decoder of 640 by
    480, not of 320 by 240. *)
Lemma Open_asks_for_requested_size :
  let s1 := Open_body GF "/dev/video0" "RGB3" 640 480 RGB24 example.adjusting init in
  setformat_ans example.adjusting = (RGB24, 320, 240, 960, 230400, None)
  /\ framer_requests (history s1) = [("RGB3", 640, 480, 960, 230400)]
  /\ ~ In (Called (GetFramer_call "RGB3" 320 240 960 230400)) (history s1)
  /\ main s1 = Idle /\ capture s1 = AtWait.
Proof.
  cbv zeta. split; [reflexivity|]. split; [vm_compute; reflexivity|].
  split; [|split; vm_compute; reflexivity].
  vm_compute. intuition discriminate.
Qed.

Lemma Open_resolves_decoder_witness :
  framer_requests
    (history (Open_body GF "/dev/video0" "RGB3" 640 480 RGB24 example.adjusting init))
  = (framer_requests (history (@init example.Frame))
     ++ [("RGB3", 640, 480, GoInt.of_uint32 960, GoInt.of_uint32 230400)])%list.
Proof.
  apply (Open_resolves_decoder F2P GF "/dev/video0" "RGB3" 640 480 RGB24
           example.adjusting init 1%nat RGB24 320 240 960 230400);
    vm_compute; reflexivity.
Defined.

(** C7, as stated, fails on the stop channel: [Open] on a driver without
    the format returns its error with no camera held and [c.stream]
    closed, but [c.stop] is open, before the rollback and after it. *)
Lemma Open_failure_leaves_stop_open :
  example.run example.to_failure init = Some example.closed_after_failure
  /\ history example.closed_after_failure
     = [Called (webcam_Open "/dev/video0"); Called GetSupportedFormats;
        Called StopStreaming; Called webcam_Close;
        Returned (OpenRet (Some (UnsupportedFormat "/dev/video0" "RGB3")))]
  /\ cam (c example.closed_after_failure) = None
  /\ stream (c example.failing) = Some (mkchan 0 0 true)
  /\ stop (c example.failing) = Some (mkchan 1 0 false)
  /\ stop (c example.closed_after_failure) = Some (mkchan 1 1 false)
  /\ ~ (exists ch, stop (c example.failing) = Some ch /\ closed ch = true)
  /\ ~ (exists ch, stop (c example.closed_after_failure) = Some ch
                   /\ closed ch = true).
Proof.
  repeat (split; [vm_compute; reflexivity|]).
  split; intros [ch [Hch Hc]]; vm_compute in Hch; inversion Hch; subst ch;
    discriminate Hc.
Qed.

Lemma Open_failure_leaves_closed_witness :
  (let s1 := example.failing in
   (exists e, open_ans example.no_formats = inr e
              /\ s1 = return_Open (Some e)
                        (emit (Called (webcam_Open "/dev/video0")) init)
              /\ cam (c s1) = None)
   \/ (exists e s3,
          rolling_back e s1
          /\ (exists h', history s1 = (history (@init example.Frame) ++ h')%list
                         /\ ~ In (Called StopStreaming) h'
                         /\ ~ In (Called webcam_Close) h')
          /\ run F2P GF [MainStep; MainStep] s1 = Some s3
          /\ main s3 = Idle /\ cam (c s3) = None /\ panicked s3 = false
          /\ stream (c s3) = Some (mkchan 0 0 true)
          /\ stop (c s3) = Some (mkchan 1 1 false)
          /\ history s3
             = (history s1 ++ [Called StopStreaming; Called webcam_Close;
                               Returned (OpenRet (Some e))])%list
          /\ (capture_alive (@init example.Frame) = false ->
              forall a s', step F2P GF a s1 = Some s' -> a = MainStep))
   \/ (exists h', history s1
                  = ((history (@init example.Frame) ++ h')
                     ++ [Returned (OpenRet None)])%list
                  /\ main s1 = Idle /\ capture s1 = AtWait
                  /\ cam (c s1) <> None))
  /\ step F2P GF (CallOpen "/dev/video0" "RGB3" 640 480 example.no_formats) init
     = Some example.failing.
Proof.
  split.
  - apply (proj1 (Open_failure_leaves_closed F2P GF) "/dev/video0" "RGB3" 640 480
                 RGB24 example.no_formats init); reflexivity.
  - apply (proj1 (proj2 (Open_failure_leaves_closed F2P GF)) "/dev/video0" "RGB3"
                 640 480 RGB24 example.no_formats init); reflexivity.
Defined.

Lemma Close_idempotent_witness :
  (step F2P GF CallClose example.closed_after_failure
   = Some (return_Close example.closed_after_failure)
   /\ c (return_Close example.closed_after_failure) = c example.closed_after_failure
   /\ history (return_Close example.closed_after_failure)
      = (history example.closed_after_failure ++ [Returned CloseRet])%list
   /\ capture (return_Close example.closed_after_failure)
      = capture example.closed_after_failure
   /\ main (return_Close example.closed_after_failure) = Idle
   /\ panicked (return_Close example.closed_after_failure) = false)
  /\ (cam (c (return_Close example.closed_after_failure)) = None
      /\ main (return_Close example.closed_after_failure) = Idle
      /\ step F2P GF CallClose (return_Close example.closed_after_failure)
         = Some (return_Close (return_Close example.closed_after_failure))
      /\ c (return_Close (return_Close example.closed_after_failure))
         = c (return_Close example.closed_after_failure)
      /\ history (return_Close (return_Close example.closed_after_failure))
         = (history (return_Close example.closed_after_failure)
            ++ [Returned CloseRet])%list).
Proof.
  split.
  - apply (proj1 (Close_idempotent F2P GF) example.closed_after_failure);
      vm_compute; reflexivity.
  - apply (proj2 (Close_idempotent F2P GF) CallClose example.closed_after_failure
                 (return_Close example.closed_after_failure)).
    + apply reachable_closed_after_failure.
    + vm_compute. reflexivity.
    + exists []. reflexivity.
    + vm_compute. reflexivity.
Defined.

(** C9, as stated, fails on a Snapper that was never opened: [Close]
    returns at once, [c.stream] is still nil, and the [Snap] after it
    waits on the nil channel with no step left to take. *)
Lemma Snap_after_Close_blocks :
  example.run [CallClose; CallSnap] init = Some example.snap_unopened
  /\ history example.snap_unopened = [Returned CloseRet]
  /\ main example.snap_unopened = InSnap
  /\ stream (c example.snap_unopened) = None
  /\ forall a, example.step a example.snap_unopened = None.
Proof.
  repeat (split; [vm_compute; reflexivity|]).
  intros a. destruct a; reflexivity.
Qed.

Lemma Snap_results_witness :
  (run F2P GF [CallSnap; MainStep] example.closed_after_failure
   = Some (return_Snap (None, Some NoFrameReceived)
             (Snap example.closed_after_failure))
   /\ forall a s', step F2P GF a (Snap example.closed_after_failure)
                   = Some s' -> a = MainStep)
  /\ (let s := example.snap_waiting [x00] in
      let r := rgb3.newFramerRGB3 false 2 2 [x00] (Some (ReleaseIndex 3)) in
      r = ((None, Some (WrongFrameLength 12 1)), [ReleaseIndex 3])
      /\ exists s', step F2P GF SelectSend s = Some s'
                    /\ main s' = Idle /\ capture s' = AtWait /\ c s' = c s
                    /\ history s'
                       = (history s
                          ++ [Fate 0 ToSnap]
                          ++ map (fun rel => Called (ReleaseFrame (released_index rel)))
                                 (snd r)
                          ++ [Returned (SnapRet (fst (fst r)) (snd (fst r)))])%list).
Proof.
  split.
  - apply (proj1 (proj2 (Snap_results F2P GF)) example.closed_after_failure).
    + apply reachable_closed_after_failure.
    + vm_compute. reflexivity.
    + vm_compute. reflexivity.
    + vm_compute. reflexivity.
    + vm_compute. discriminate.
  - cbv zeta. split; [vm_compute; reflexivity|].
    apply (proj1 (proj2 (proj2 (proj2 (Snap_results F2P GF))))
                 (example.snap_waiting [x00]) (mksnap [x00] 3) 0%nat
                 (rgb3.newFramerRGB3 false 2 2) (mkchan 0 0 false)).
    + vm_compute. reflexivity.
    + vm_compute. reflexivity.
    + vm_compute. reflexivity.
    + vm_compute. reflexivity.
    + reflexivity.
    + vm_compute. reflexivity.
    + vm_compute. discriminate.
Defined.

End Examples.

(** * Further properties *)

(** ** The RGB3 decoder with padding *)

Lemma round_up_multiple (m n : Z) : 0 < m -> (m | n) -> round_up m n = n.
Proof.
  intros Hm [q ->]. unfold round_up.
  replace (q * m + m - 1) with (m - 1 + q * m) by lia.
  rewrite Z.div_add, Z.div_small by lia. lia.
Qed.

(** X1: with padding on, on a buffer the decoder accepts, [At(x, y)] reads
    the three bytes at offset [3 * (stride * y + x)], the stride being the
    width rounded up to a multiple of 32, and returns them with alpha 0xFF;
    this holds on the whole padded area, since [At] does not compare the
    coordinate with [Bounds]. *)
Theorem At_padded_addressing (Rel : Type) (w h x y : Z) (buf : list byte)
    (rel : option Rel) (f : rgb3.fRGB3 Rel) :
  size_fits true w h ->
  rgb3.newFramerRGB3 true w h buf rel = ((Some f, None), []) ->
  0 <= x < round_up 32 w -> 0 <= y < round_up 16 h ->
  let i := 3 * (round_up 32 w * y + x) in
  rgb3.At_offset f x y = i
  /\ rgb3.Bounds f = image.Rect 0 0 w h
  /\ exists r g bl,
       at_index buf i = Some r /\ at_index buf (i + 1) = Some g
       /\ at_index buf (i + 2) = Some bl
       /\ rgb3.At f x y = Some (color.mkRGBA r g bl xff).
Proof.
  intros Hfits Hacc Hx Hy. unfold size_fits in Hfits. cbv zeta.
  unfold rgb3.newFramerRGB3 in Hacc.
  set (rs := round_up 32 w) in *. set (rh := round_up 16 h) in *.
  assert (Hrow : rs * y + rs <= rs * rh) by nia.
  assert (Hy0 : 0 <= rs * y) by nia.
  assert (Hrr : rs * 1 <= rs * rh) by (apply Z.mul_le_mono_nonneg_l; lia).
  assert (Hrs : GoInt.in_int rs) by (int_bounds; lia).
  rewrite geometryRGB3_padded_wrap in Hacc. fold rs rh in Hacc.
  rewrite !wrap_small in Hacc by assumption.
  apply frameRGB3_accepted in Hacc as [Hlen [-> _]].
  assert (Hoff : rgb3.At_offset
                   (rgb3.mkfRGB3 (image.Rect 0 0 w h) rs buf rel) x y
                 = 3 * (rs * y + x)).
  { unfold rgb3.At_offset, GoInt.add, GoInt.mul; cbn [rgb3.width].
    rewrite (wrap_small (rs * y)) by (int_bounds; lia).
    rewrite (wrap_small (rs * y * 3)) by (int_bounds; lia).
    rewrite (wrap_small (x * 3)) by (int_bounds; lia).
    rewrite wrap_small by (int_bounds; lia). lia. }
  split; [exact Hoff|]. split; [reflexivity|].
  unfold rgb3.At. cbv zeta. rewrite Hoff. cbn [rgb3.frame].
  unfold GoInt.add. rewrite !wrap_small by (int_bounds; lia).
  destruct (at_index_in_range buf (3 * (rs * y + x))) as [r Hr];
    [int_bounds; lia|].
  destruct (at_index_in_range buf (3 * (rs * y + x) + 1)) as [g Hg];
    [int_bounds; lia|].
  destruct (at_index_in_range buf (3 * (rs * y + x) + 2)) as [bl Hbl];
    [int_bounds; lia|].
  exists r, g, bl. rewrite Hr, Hg, Hbl. repeat split.
Qed.

Lemma At_padded_addressing_witness :
  let buf := repeat x00 1536 in
  let f := rgb3.mkfRGB3 (image.Rect 0 0 2 1) 32 buf (@None unit) in
  rgb3.At_offset f 31 15 = 3 * (round_up 32 2 * 15 + 31)
  /\ rgb3.Bounds f = image.Rect 0 0 2 1
  /\ exists r g bl,
       at_index buf (3 * (round_up 32 2 * 15 + 31)) = Some r
       /\ at_index buf (3 * (round_up 32 2 * 15 + 31) + 1) = Some g
       /\ at_index buf (3 * (round_up 32 2 * 15 + 31) + 2) = Some bl
       /\ rgb3.At f 31 15 = Some (color.mkRGBA r g bl xff).
Proof.
  intros buf f.
  apply (At_padded_addressing unit 2 1 31 15 buf None f).
  - unfold size_fits, GoInt.in_int. vm_compute. split; discriminate.
  - vm_compute. reflexivity.
  - vm_compute. split; [discriminate|reflexivity].
  - vm_compute. split; [discriminate|reflexivity].
Defined.

(** X2: padding never makes the expected size smaller than the unpadded
    one, and for a width that is a multiple of 32 and a height that is a
    multiple of 16 the padded decoder expects the unpadded size, with the
    width as stride (the width and the sizes being ints, the dimensions
    not negative). *)
Theorem padded_size_dominates (w h : Z) :
  GoInt.in_int w -> 0 <= w -> 0 <= h -> size_fits true w h ->
  fst (rgb3.geometryRGB3 false w h) = 3 * h * w
  /\ fst (rgb3.geometryRGB3 false w h) <= fst (rgb3.geometryRGB3 true w h)
  /\ ((32 | w) -> (16 | h) -> rgb3.geometryRGB3 true w h = (3 * h * w, w)).
Proof.
  intros Hint Hw Hh Hfits. unfold size_fits in Hfits.
  pose proof (round_up_least 32 w ltac:(lia)) as [_ [Hrw _]].
  pose proof (round_up_least 16 h ltac:(lia)) as [_ [Hrh _]].
  set (rs := round_up 32 w) in *. set (rh := round_up 16 h) in *.
  assert (Hmono : w * h <= rs * rh) by (apply Z.mul_le_mono_nonneg; lia).
  assert (Hwh : 0 <= w * h) by (apply Z.mul_nonneg_nonneg; lia).
  assert (Hun : GoInt.in_int (3 * h * w)) by (int_bounds; lia).
  rewrite geometryRGB3_unpadded, geometryRGB3_padded_wrap. fold rs rh.
  cbn [fst]. rewrite (wrap_small (3 * h * w)) by assumption.
  rewrite (wrap_small (3 * rs * rh)) by assumption.
  split; [reflexivity|]. split; [lia|].
  intros Hdw Hdh. subst rs rh.
  rewrite (round_up_multiple 32 w) in * by (assumption || lia).
  rewrite (round_up_multiple 16 h) in * by (assumption || lia).
  rewrite (wrap_small w) by exact Hint.
  f_equal. lia.
Qed.

Lemma padded_size_dominates_witness :
  fst (rgb3.geometryRGB3 false 640 480) = 3 * 480 * 640
  /\ fst (rgb3.geometryRGB3 false 640 480) <= fst (rgb3.geometryRGB3 true 640 480)
  /\ ((32 | 640) -> (16 | 480) -> rgb3.geometryRGB3 true 640 480 = (3 * 480 * 640, 640)).
Proof.
  apply (padded_size_dominates 640 480); try lia.
  - unfold GoInt.in_int. vm_compute. split; discriminate.
  - unfold size_fits, GoInt.in_int. vm_compute. split; discriminate.
Defined.

(** X3: a decoder whose expected size came out negative, from a negative
    dimension or from overflow, rejects every buffer, and releases it. *)
Theorem negative_size_rejects (Rel : Type) (padded : bool) (w h : Z)
    (buf : list byte) (rel : option Rel) :
  fst (rgb3.geometryRGB3 padded w h) < 0 ->
  rgb3.newFramerRGB3 padded w h buf rel
  = ((None, Some (WrongFrameLength (fst (rgb3.geometryRGB3 padded w h)) (len buf))),
     match rel with Some r => [r] | None => [] end).
Proof.
  intros Hneg. unfold rgb3.newFramerRGB3.
  destruct (rgb3.geometryRGB3 padded w h) as [size bw]. cbn [fst] in *.
  unfold rgb3.frameRGB3.
  assert (Hlen : 0 <= len buf) by (unfold len; lia).
  replace (len buf =? size) with false by (symmetry; apply Z.eqb_neq; lia).
  reflexivity.
Qed.

Lemma negative_size_rejects_witness :
  rgb3.newFramerRGB3 false (-1) 2 [x00] (Some 7%nat)
  = ((None, Some (WrongFrameLength (fst (rgb3.geometryRGB3 false (-1) 2)) (len [x00]))),
     [7%nat]).
Proof.
  apply (negative_size_rejects nat false (-1) 2 [x00] (Some 7%nat)).
  vm_compute. reflexivity.
Defined.

(** ** Match and canFit, at the edges *)

(** X4: [Match] looks at the low 32 bits of the requested width and height
    only: adding a multiple of 2^32 to either changes nothing. *)
Theorem Match_low_bits (fs : FrameSize) (w h k j : Z) :
  Match fs (w + k * 2 ^ 32) (h + j * 2 ^ 32) = Match fs w h.
Proof.
  unfold Match, GoInt.to_uint32. rewrite !Z.mod_add by lia. reflexivity.
Qed.

(** X5: on [uint32] values, a value that fits lies between the minimum and
    the maximum; with a step of zero only a fixed size can be met; and the
    minimum of a stepped range that is not empty always fits. *)
Theorem canFit_range (min max step val : Z) :
  GoInt.is_uint32 min -> GoInt.is_uint32 val ->
  (canFit min max step val = true -> min <= val <= max)
  /\ (step = 0 -> min <> max -> canFit min max step val = false)
  /\ (step <> 0 -> min <= max -> canFit min max step min = true).
Proof.
  unfold GoInt.is_uint32. intros Hmin Hval. unfold canFit. split; [|split].
  - destruct ((min =? max) && (step =? 0) && (val =? min)) eqn:Hfix.
    + rewrite !andb_true_iff, !Z.eqb_eq in Hfix. lia.
    + rewrite !andb_true_iff, Z.geb_le, Z.leb_le. lia.
  - intros -> Hne. apply Z.eqb_neq in Hne. rewrite Hne. reflexivity.
  - intros Hs Hle. apply Z.eqb_neq in Hs. rewrite Hs, Z.eqb_refl.
    assert (Hrest : (min >=? min) && (min <=? max)
                    && (GoInt.sub32 min min mod step =? 0) = true).
    { unfold GoInt.sub32. rewrite Z.sub_diag.
      repeat rewrite Z.mod_0_l by lia.
      rewrite !andb_true_iff, Z.geb_le, Z.leb_le, Z.eqb_eq. lia. }
    cbn [negb andb]. rewrite Hrest. destruct (min =? max); reflexivity.
Qed.

Lemma canFit_range_witness :
  (canFit 100 200 10 110 = true -> 100 <= 110 <= 200)
  /\ (10 = 0 -> 100 <> 200 -> canFit 100 200 10 110 = false)
  /\ (10 <> 0 -> 100 <= 200 -> canFit 100 200 10 100 = true).
Proof.
  apply (canFit_range 100 200 10 110); unfold GoInt.is_uint32; lia.
Defined.
(** ** More on the pipeline *)

Section PipelineMore.

Import snapper.

Context {Frame : Type}.
Variable FourCCToPixelFormat : FourCC -> PixelFormat * option error.
Variable GetFramer :
  FourCC -> Z -> Z -> Z -> Z -> option (Framer Frame) * option error.

Local Abbreviation System := (System Frame).
Local Abbreviation Open_body := (Open_body GetFramer).
Local Abbreviation Open := (Open FourCCToPixelFormat GetFramer).
Local Abbreviation step := (step FourCCToPixelFormat GetFramer).
Local Abbreviation run := (run FourCCToPixelFormat GetFramer).
Local Abbreviation reachable := (reachable FourCCToPixelFormat GetFramer).

Ltac flds :=
  cbn [return_Open return_Close return_Snap emit set_cam set_stop set_stream
       set_framer set_main set_capture panic count_fetch cam Timeout Buffers
       framer stop stream c main capture history fetched panicked cap buffered
       closed fst snd Snap].

Ltac flds_in H :=
  cbn [return_Open return_Close return_Snap emit set_cam set_stop set_stream
       set_framer set_main set_capture panic count_fetch cam Timeout Buffers
       framer stop stream c main capture history fetched panicked cap buffered
       closed fst snd Snap] in H.

Ltac state_red :=
  lazy beta iota zeta delta
    [snapper.Open_body snapper.Open_negotiated Open_start Open_deferred
     Close_enter Close_finish Close_receive close_stream on_cam return_Open
     return_Close return_Snap emit set_cam set_stop set_stream set_framer
     set_main set_capture panic make count_fetch cam Timeout Buffers framer
     stop stream c main capture history fetched panicked cap buffered closed
     negb].

Lemma count_app (p : Event Frame -> bool) (h1 h2 : list (Event Frame)) :
  count p (h1 ++ h2) = (count p h1 + count p h2)%nat.
Proof. unfold count. rewrite filter_app, length_app. reflexivity. Qed.

(** Rewriting of the three counts and of the fates over an extended
    history. *)
Ltac hist :=
  rewrite ?fates_app, ?count_app;
  cbn [fates flat_map app count filter List.length is_GetFrame is_release is_discarded];
  rewrite ?app_nil_r, ?Nat.add_0_r.

Lemma setup_counts (p : Event Frame -> bool) (h : list (Event Frame)) :
  (forall e, is_setup e = true -> p e = false) ->
  forallb is_setup h = true -> count p h = 0%nat.
Proof.
  intros Hp. induction h as [|e h IH]; intros Hall; [reflexivity|].
  cbn in Hall. apply andb_true_iff in Hall as [He Hh].
  unfold count in *. cbn [filter]. rewrite (Hp e He). auto.
Qed.

Lemma setup_fates (h : list (Event Frame)) :
  forallb is_setup h = true -> fates h = [].
Proof.
  induction h as [|e h IH]; intros Hall; [reflexivity|].
  cbn in Hall. apply andb_true_iff in Hall as [He Hh].
  change (e :: h) with ([e] ++ h). rewrite fates_app, (IH Hh), app_nil_r.
  destruct e as [call|r|n f]; try reflexivity. discriminate.
Qed.

(** [Open] adds to the history nothing but its own calls and its return. *)
Lemma Open_body_setup (device : string) (format : FourCC) (w h : Z)
    (pf : PixelFormat) (ans : OpenAnswers) (s : System) :
  panicked s = false ->
  exists h', history (Open_body device format w h pf ans s) = history s ++ h'
             /\ forallb is_setup h' = true.
Proof.
  intros Hp. unfold snapper.Open_body.
  destruct s as [[cam1 tmo bufs fr st sm] m cp hist fet pan].
  cbn in Hp. subst pan.
  destruct (setformat_ans ans) as [[[[[npf nw] nh] stride] size] err].
  unfold snapper.Open_negotiated.
  destruct (open_ans ans) as [cam0|e];
    [destruct (has_format pf (formats_ans ans));
     [destruct (existsb (fun value => Match value w h) (sizes_ans ans));
      [destruct err as [e|];
       [|destruct (negb (npf =? pf) || negb (w =? GoInt.of_uint32 nw)
                   || negb (h =? GoInt.of_uint32 nh));
         (destruct (snd (GetFramer format w h (GoInt.of_uint32 stride)
                                   (GoInt.of_uint32 size))) as [e|];
          [|unfold Open_start; destruct (start_ans ans) as [e|]])]|]|]|];
    state_red; rewrite <- ?app_assoc; eexists; (split; [reflexivity|reflexivity]).
Qed.

Lemma Inv2_fresh (timeout buffers : Z) : Inv2 (@fresh Frame timeout buffers).
Proof.
  constructor; cbn; try discriminate; try reflexivity; auto; congruence.
Qed.

Lemma Inv2_same (s s' : System) :
  Inv2 s ->
  cam (c s') = cam (c s) -> stop (c s') = stop (c s) ->
  stream (c s') = stream (c s) -> capture s' = capture s ->
  fetched s' = fetched s ->
  in_range (main s') = in_range (main s) ->
  (in_Close (main s') = false -> in_Close (main s) = false) ->
  fates (history s') = fates (history s) ->
  count is_GetFrame (history s') = count is_GetFrame (history s) ->
  count is_discarded (history s') = count is_discarded (history s) ->
  (count is_release (history s) <= count is_release (history s'))%nat ->
  Inv2 s'.
Proof.
  intros [Ht Hr Ho Hrun Hs Hg Hrel] Ecam Estop Estream Ecap Efet Erange Eclose
         Efat Eget Ekept Erel.
  constructor; unfold stop_ready, stream_open, capture_alive, pending in *;
    rewrite ?Ecam, ?Estop, ?Estream, ?Ecap, ?Efet, ?Erange, ?Efat, ?Eget, ?Ekept;
    auto; lia.
Qed.

Lemma Open_body_Inv2 (device : string) (format : FourCC) (w h : Z)
    (pf : PixelFormat) (ans : OpenAnswers) (s : System) :
  Inv2 (set_main Idle s) -> panicked s = false -> capture_alive s = false ->
  cam (c s) = None -> stream_open s = false ->
  Inv2 (Open_body device format w h pf ans s).
Proof.
  intros HI Hp Hdead Hcam Hclosed.
  pose proof (dead_no_pending s Hdead) as Hpend.
  destruct (Open_body_setup device format w h pf ans s Hp) as [h' [Hh Hall]].
  pose proof (setup_fates h' Hall) as Hf.
  pose proof (setup_counts is_GetFrame h' ltac:(intros [[]| |]; (discriminate || reflexivity)) Hall) as Hg.
  pose proof (setup_counts is_discarded h' ltac:(intros [[]| |? []]; (discriminate || reflexivity)) Hall) as Hk.
  destruct HI as [_ _ _ _ Hs Hgot Hrel]. flds_in Hs. flds_in Hgot. flds_in Hrel.
  unfold pending in Hs; flds_in Hs; fold (pending s) in Hs.
  rewrite Hpend, app_nil_r in Hs.
  destruct (Open_body_outcome FourCCToPixelFormat GetFramer device format w h pf ans s Hp)
    as [e Hans Heq
       | e cam0 h0 Hans [Hm [Hp' [Hcam' [Hstop Hstream]]]] _ _ _ _ _ Hcap Hfet
       | cam0 h0 Hans Hm Hp' Hcam' Hstop Hstream _ _ _ Hcap Hfet].
  - assert (Ec : c (Open_body device format w h pf ans s) = c s)
      by (rewrite Heq; reflexivity).
    assert (Ecap : capture (Open_body device format w h pf ans s) = capture s)
      by (rewrite Heq; reflexivity).
    assert (Efet : fetched (Open_body device format w h pf ans s) = fetched s)
      by (rewrite Heq; reflexivity).
    assert (Em : main (Open_body device format w h pf ans s) = Idle)
      by (rewrite Heq; reflexivity).
    constructor; unfold stop_ready, stream_open, capture_alive, pending in *;
      rewrite ?Ec, ?Ecap, ?Efet, ?Em, ?Hh, ?fates_app, ?count_app, ?Hf, ?Hg, ?Hk,
        ?app_nil_r, ?Nat.add_0_r;
      try congruence; try discriminate; try lia.
    destruct (capture s); try discriminate; rewrite app_nil_r; assumption.
  - constructor; unfold stop_ready, stream_open, capture_alive, pending in *;
      rewrite ?Hcap, ?Hfet, ?Hm, ?Hstop, ?Hstream, ?Hh, ?fates_app, ?count_app,
        ?Hf, ?Hg, ?Hk, ?app_nil_r, ?Nat.add_0_r;
      cbn [in_range in_Close closed negb];
      try congruence; try discriminate; try lia.
    destruct (capture s); try discriminate; rewrite app_nil_r; assumption.
  - constructor; unfold stop_ready, stream_open, capture_alive, pending in *;
      rewrite ?Hcap, ?Hfet, ?Hm, ?Hstop, ?Hstream, ?Hh, ?fates_app, ?count_app,
        ?Hf, ?Hg, ?Hk, ?app_nil_r, ?Nat.add_0_r;
      cbn [in_range in_Close closed negb make];
      try congruence; try discriminate; try lia; auto.
Qed.

Lemma releases_counts (called : list relfn) :
  let evs := map (fun r => @Called Frame (ReleaseFrame (released_index r))) called in
  fates evs = [] /\ count is_GetFrame evs = 0%nat /\ count is_discarded evs = 0%nat.
Proof.
  cbv zeta. induction called as [|r called [IH1 [IH2 IH3]]];
    [repeat split|]; cbn [map].
  unfold count in *. cbn [fates flat_map filter is_GetFrame is_discarded app].
  auto.
Qed.

Ltac inv2_fields :=
  constructor;
  unfold stop_ready, stream_open, capture_alive, pending, in_range, in_Close in *;
  flds; hist;
  repeat match goal with
         | H : main ?s = _ |- context [main ?s] => rewrite H
         | H : stream (c ?s) = _ |- context [stream (c ?s)] => rewrite H
         | H : closed ?ch = _ |- context [closed ?ch] => rewrite H
         end;
  auto; try congruence; try discriminate; try lia.

Ltac same_state s Hm :=
  apply (Inv2_same s); try reflexivity; try assumption;
  flds; rewrite ?Hm; hist; auto; try discriminate; try lia.

Lemma Inv2_step (a : Action) (s s' : System) :
  Inv s -> Inv2 s -> step a s = Some s' -> panicked s' = false -> Inv2 s'.
Proof.
  intros HI HI2 Hstep Hp'. unfold snapper.step in Hstep.
  destruct (panicked s) eqn:Hp; [discriminate|].
  destruct a.
  - destruct (main s) eqn:Hm; try discriminate.
    inversion Hstep; subst s'; clear Hstep.
    unfold snapper.Open in *.
    destruct (FourCCToPixelFormat format) as [pf [e|]].
    + same_state s Hm.
    + unfold Close_enter in *. destruct (cam (c s)) eqn:Hcam.
      * same_state s Hm.
      * apply Open_body_Inv2; try assumption.
        -- same_state s Hm.
        -- apply alive_or_dead; auto.
        -- apply (inv_closed s HI Hcam).
  - destruct (main s) eqn:Hm; try discriminate.
    inversion Hstep; subst s'; clear Hstep. unfold Snap. same_state s Hm.
  - destruct (main s) eqn:Hm; try discriminate.
    inversion Hstep; subst s'; clear Hstep.
    unfold Close, Close_enter in *. destruct (cam (c s)) eqn:Hcam;
      same_state s Hm.
  - unfold snapper.main_step in Hstep. destruct (main s) eqn:Hm; try discriminate.
    + destruct (stream (c s)) as [ch|] eqn:Hs; [|discriminate].
      destruct (closed ch) eqn:Hc; [|discriminate].
      inversion Hstep; subst s'; clear Hstep.
      unfold Snap_received. same_state s Hm.
    + unfold Close_send in Hstep.
      destruct (stop (c s)) as [ch|] eqn:Hs; [|discriminate].
      destruct (closed ch) eqn:Hc.
      { inversion Hstep; subst s'. discriminate. }
      destruct (buffered ch <? cap ch)%nat; [|discriminate].
      inversion Hstep; subst s'; clear Hstep.
      destruct HI2 as [Ht Hr Ho Hrun Hsq Hg Hrel]. inv2_fields.
    + destruct (stream (c s)) as [ch|] eqn:Hs; [|discriminate].
      destruct (closed ch) eqn:Hc; [|discriminate].
      inversion Hstep; subst s'; clear Hstep.
      assert (Hclosed : stream_open s = false)
        by (unfold stream_open; rewrite Hs, Hc; reflexivity).
      assert (Hdead : capture_alive s = false)
        by (apply alive_or_dead; auto).
      assert (Hcam : cam (c s) <> None).
      { apply (inv_in_close s HI). rewrite Hm. reflexivity. }
      destruct (cam (c s)) as [w0|] eqn:E; [|congruence].
      rewrite (Close_finish_with_cam s w0 E) in *.
      set (s2 := mkSystem _ _ _ _ _ _) in *.
      assert (HI2' : Inv2 (set_main Idle s2)).
      { subst s2. destruct HI2 as [Ht Hr Ho Hrun Hsq Hg Hrel]. inv2_fields. }
      destruct k as [|device format w h pf ans|ret]; unfold snapper.resume.
      * same_state (set_main Idle s2) Hm.
      * apply Open_body_Inv2; try assumption; try reflexivity.
      * same_state (set_main Idle s2) Hm.
  - destruct (capture s) eqn:Hcap; try discriminate.
    inversion Hstep; subst s'; clear Hstep.
    assert (Halive : capture_alive s = true)
      by (unfold capture_alive; now rewrite Hcap).
    destruct (inv_alive s HI Halive) as [Hcam Hopen].
    destruct (cam (c s)) as [w0|] eqn:E; [|congruence].
    unfold capture_wait in *. rewrite (on_cam_with_cam _ s w0 E) in *.
    flds_in Hp'. flds. rewrite Hp in *.
    destruct a as [|e|[[fr ix]|e]].
    + apply (Inv2_same s); try reflexivity; try assumption;
        flds; hist; auto; try lia.
    + discriminate Hp'.
    + rewrite (on_cam_with_cam _ _ w0) in * by exact E.
      destruct HI2 as [Ht Hr Ho Hrun Hsq Hg Hrel].
      unfold pending in Hsq. rewrite Hcap, app_nil_r in Hsq.
      unfold count_fetch. inv2_fields.
      rewrite seq_S, Hsq. reflexivity.
    + rewrite (on_cam_with_cam _ _ w0) in * by exact E. discriminate Hp'.
  - destruct (capture s) eqn:Hcap; try discriminate.
    destruct (send_ready s) eqn:Hready; [|discriminate].
    inversion Hstep; subst s'; clear Hstep.
    assert (Halive : capture_alive s = true)
      by (unfold capture_alive; now rewrite Hcap).
    destruct (inv_alive s HI Halive) as [Hcam Hopen].
    destruct (cam (c s)) as [w0|] eqn:E; [|congruence].
    unfold select_send, stream_open, send_ready, receiver_parked in *.
    destruct (stream (c s)) as [ch|] eqn:Hs; [|discriminate].
    destruct (closed ch) eqn:Hc; [discriminate|].
    destruct HI2 as [Ht Hr Ho Hrun Hsq Hg Hrel].
    unfold pending in Hsq. rewrite Hcap in Hsq.
    destruct (main s) eqn:Hm; try discriminate.
    + unfold Snap_received in *. flds_in Hp'. flds.
      destruct (framer (c s)) as [fr|]; [|discriminate].
      destruct (fr (frame got) (Some (ReleaseIndex (index got)))) as [r called].
      rewrite run_rels_with_cam in * by (flds; congruence).
      destruct (releases_counts called) as [Hf [Hgf Hk]].
      inv2_fields; rewrite ?Hf, ?Hgf, ?Hk, ?app_nil_r, ?Nat.add_0_r;
        auto; try lia.
    + unfold Close_receive. rewrite (on_cam_with_cam _ _ w0) in * by exact E.
      inv2_fields.
      intros _. rewrite Hs, Hc in Hr.
      destruct (Hr eq_refl) as [H|H]; [left; exact H|discriminate H].
  - destruct (capture s) eqn:Hcap; try discriminate.
    destruct (stop_ready s) eqn:Hready; [|discriminate].
    inversion Hstep; subst s'; clear Hstep.
    assert (Halive : capture_alive s = true)
      by (unfold capture_alive; now rewrite Hcap).
    destruct (inv_alive s HI Halive) as [Hcam Hopen].
    assert (Hin : in_range (main s) = true).
    { destruct (in_range (main s)) eqn:Hin; [reflexivity|].
      pose proof (inv2_token s HI2 Hcam Hin) as Hst.
      unfold stop_ready in Hready. rewrite Hst in Hready. discriminate. }
    destruct (cam (c s)) as [w0|] eqn:E; [|congruence].
    unfold select_stop, stop_ready, stream_open in *.
    destruct (stop (c s)) as [ch|] eqn:Hst'; [|discriminate].
    destruct (stream (c s)) as [ch2|] eqn:Hs; [|discriminate].
    destruct (closed ch2) eqn:Hc; [discriminate|].
    rewrite (on_cam_with_cam _ _ w0) in * by exact E.
    unfold close_stream in *. flds_in Hp'. flds. rewrite Hs in *. flds_in Hp'. flds.
    rewrite Hc in *.
    destruct HI2 as [Ht Hr Ho Hrun Hsq Hg Hrel].
    unfold pending in Hsq. rewrite Hcap in Hsq.
    destruct (main s) eqn:Hm; try discriminate.
    inv2_fields.
  - destruct (capture s) eqn:Hcap; try discriminate.
    destruct (send_ready s || stop_ready s) eqn:Hready; [discriminate|].
    inversion Hstep; subst s'; clear Hstep.
    assert (Halive : capture_alive s = true)
      by (unfold capture_alive; now rewrite Hcap).
    destruct (inv_alive s HI Halive) as [Hcam Hopen].
    destruct (cam (c s)) as [w0|] eqn:E; [|congruence].
    unfold select_default in *. rewrite (on_cam_with_cam _ _ w0) in * by exact E.
    destruct HI2 as [Ht Hr Ho Hrun Hsq Hg Hrel].
    unfold pending in Hsq. rewrite Hcap in Hsq.
    inv2_fields.
Qed.

Lemma reachable_Inv2 (s : System) :
  reachable s -> panicked s = false -> Inv2 s.
Proof.
  induction 1 as [timeout buffers|a s s' Hr IH Hstep]; intros Hp.
  - apply Inv2_fresh.
  - pose proof (step_not_panicked _ _ _ _ _ Hstep) as Hps.
    eapply Inv2_step; eauto.
    apply (reachable_Inv FourCCToPixelFormat GetFramer); assumption.
Qed.

Lemma reachable_both (s : System) :
  reachable s -> panicked s = false -> Inv s /\ Inv2 s.
Proof.
  intros Hr Hp. split; [|apply reachable_Inv2; assumption].
  apply (reachable_Inv FourCCToPixelFormat GetFramer); assumption.
Qed.

(** *** The fetched buffers *)


Lemma seq_order (l1 l2 l3 : list nat) (n m a len : nat) :
  l1 ++ n :: l2 ++ m :: l3 = seq a len -> (n < m)%nat.
Proof.
  revert a len. induction l1 as [|x l1 IH]; intros a len Heq.
  - destruct len as [|len]; [discriminate|]. cbn in Heq.
    inversion Heq as [[Hn Hrest]]. subst n.
    assert (Hin : In m (seq (S a) len)).
    { rewrite <- Hrest. apply in_or_app. right. left. reflexivity. }
    apply in_seq in Hin. lia.
  - destruct len as [|len]; [discriminate|]. cbn in Heq.
    inversion Heq as [[Hx Hrest]]. eapply IH. exact Hrest.
Qed.

(** X7: the fetches meet their fates in fetch order; in particular [Snap]
    never returns a frame fetched before one it returned earlier. *)
Theorem fates_in_fetch_order (s : System) (h1 h2 h3 : list (Event Frame))
    (n m : nat) (f f' : fate) :
  reachable s -> panicked s = false ->
  history s = h1 ++ Fate n f :: h2 ++ Fate m f' :: h3 ->
  (n < m)%nat.
Proof.
  intros Hr Hp Hh. destruct (reachable_both s Hr Hp) as [_ [_ _ _ _ Hs _ _]].
  rewrite Hh in Hs.
  change (Fate n f :: h2 ++ Fate m f' :: h3)
    with ([Fate n f] ++ h2 ++ [Fate m f'] ++ h3) in Hs.
  rewrite !fates_app in Hs. cbn [fates flat_map app] in Hs.
  rewrite <- !app_assoc in Hs. cbn [app] in Hs.
  rewrite <- app_assoc in Hs. cbn [app] in Hs.
  eapply seq_order. exact Hs.
Qed.

(** *** The capture goroutine and the camera *)

(** X8: while the application is between two calls, or waits in [Snap] at
    its receive, the capture goroutine runs exactly when a camera is held,
    and [c.stream] is open exactly then; with no camera no step of the
    capture goroutine is possible.  (Inside [Open] and [Close] this does
    not hold: [Open] sets [c.cam] before it starts the goroutine, and
    [Close] clears it after the goroutine has ended.) *)
Theorem capture_runs_iff_open (s : System) :
  reachable s -> panicked s = false -> main s = Idle \/ main s = InSnap ->
  (capture_alive s = true <-> cam (c s) <> None)
  /\ (stream_open s = true <-> cam (c s) <> None)
  /\ (cam (c s) = None ->
      forall a s', step a s = Some s' -> is_capture_action a = false).
Proof.
  intros Hr Hp Hcall.
  assert (Hm : in_Close (main s) = false)
    by (destruct Hcall as [-> | ->]; reflexivity).
  destruct (reachable_both s Hr Hp) as [HI HI2].
  assert (Hiff : capture_alive s = true <-> cam (c s) <> None).
  { split.
    - intros Ha. apply (inv_alive s HI Ha).
    - intros Hcam. apply (inv2_running s HI2 Hcam Hm). }
  split; [exact Hiff|]. split.
  - split.
    + intros Ho. apply Hiff. apply (inv2_open s HI2 Ho).
    + intros Hcam. apply Hiff in Hcam. apply (inv_alive s HI Hcam).
  - intros Hcam a s' Hstep.
    assert (Hdead : capture_alive s = false) by (apply alive_or_dead; auto).
    unfold snapper.step, capture_alive in *. rewrite Hp in Hstep.
    destruct a; try reflexivity; destruct (capture s); discriminate.
Qed.

(** X9: no step of the application, [Open] included, replaces or ends a
    capture goroutine that runs: there is one capture goroutine at most. *)
Theorem application_keeps_capture (a : Action) (s s' : System) :
  reachable s -> capture_alive s = true ->
  is_application_action a = true -> step a s = Some s' ->
  capture s' = capture s.
Proof.
  intros Hr Halive Happ Hstep.
  pose proof (step_not_panicked _ _ _ _ _ Hstep) as Hp.
  destruct (reachable_both s Hr Hp) as [HI _].
  destruct (inv_alive s HI Halive) as [Hcam Hopen].
  unfold snapper.step in Hstep. rewrite Hp in Hstep.
  unfold stream_open in Hopen.
  destruct a; try discriminate Happ.
  - destruct (main s); try discriminate. inversion Hstep; subst s'.
    unfold snapper.Open, Close_enter.
    destruct (FourCCToPixelFormat format) as [pf [e|]]; [reflexivity|].
    destruct (cam (c s)); [reflexivity|congruence].
  - destruct (main s); try discriminate. inversion Hstep; subst s'. reflexivity.
  - destruct (main s); try discriminate. inversion Hstep; subst s'.
    unfold Close, Close_enter. destruct (cam (c s)); [reflexivity|congruence].
  - unfold snapper.main_step, Close_send in Hstep.
    destruct (main s); try discriminate.
    + destruct (stream (c s)) as [ch|]; [|discriminate].
      destruct (closed ch); discriminate.
    + destruct (stop (c s)) as [ch|]; [|discriminate].
      destruct (closed ch); [inversion Hstep; subst s'; reflexivity|].
      destruct (buffered ch <? cap ch)%nat; [|discriminate].
      inversion Hstep; subst s'; reflexivity.
    + destruct (stream (c s)) as [ch|]; [|discriminate].
      destruct (closed ch); discriminate.
Qed.

(** *** Close *)

(** X10: the send of [Close] on [c.stop] never waits: whenever [Close] is
    at it the channel is empty, and the next step of the application puts
    the stop request into it and enters the loop over [c.stream]. *)
Theorem Close_send_proceeds (s : System) (k : cont) :
  reachable s -> panicked s = false -> main s = InCloseSend k ->
  stop (c s) = Some (mkchan 1 0 false)
  /\ step MainStep s
     = Some (set_main (InCloseRange k) (set_stop (Some (mkchan 1 1 false)) s)).
Proof.
  intros Hr Hp Hm. destruct (reachable_both s Hr Hp) as [HI HI2].
  assert (Hcam : cam (c s) <> None).
  { apply (inv_in_close s HI). rewrite Hm. reflexivity. }
  assert (Hstop : stop (c s) = Some (mkchan 1 0 false)).
  { apply (inv2_token s HI2 Hcam). rewrite Hm. reflexivity. }
  split; [exact Hstop|].
  unfold snapper.step, snapper.main_step, Close_send.
  rewrite Hp, Hm, Hstop. reflexivity.
Qed.

(** X11: [Close] can always run to its end: from every state in which the
    application is in its own code there is a schedule of [Close] and at
    most four more steps, of [Close] itself and of the capture goroutine
    with at most one more frame from the driver, after which [Close] has
    returned, no camera is held and the capture goroutine has ended. *)
Theorem Close_can_complete (s : System) :
  reachable s -> panicked s = false -> main s = Idle ->
  exists acts s',
    (List.length acts <= 4)%nat
    /\ Forall (fun a => a = MainStep \/ is_capture_action a = true) acts
    /\ run (CallClose :: acts) s = Some s'
    /\ panicked s' = false /\ main s' = Idle /\ cam (c s') = None
    /\ capture_alive s' = false
    /\ exists h, history s' = history s ++ h ++ [Returned CloseRet].
Proof.
  intros Hr Hp Hm. destruct (reachable_both s Hr Hp) as [HI HI2].
  destruct (cam (c s)) as [w0|] eqn:Hcam.
  - assert (Hne : cam (c s) <> None) by congruence.
    assert (Hidle : in_Close (main s) = false) by (rewrite Hm; reflexivity).
    assert (Hrange : in_range (main s) = false) by (rewrite Hm; reflexivity).
    pose proof (inv2_running s HI2 Hne Hidle) as Halive.
    destruct (inv_alive s HI Halive) as [_ Hopen].
    pose proof (inv2_token s HI2 Hne Hrange) as Hstop.
    destruct s as [[cam1 tmo bufs fr st sm] m cp hist fet pan].
    unfold stream_open, capture_alive in *.
    cbn in Hp, Hm, Hcam, Hopen, Hstop, Halive. subst pan m cam1 st.
    destruct sm as [[cp0 bf cl]|]; [|discriminate].
    cbn in Hopen. destruct cl; [discriminate|].
    destruct cp as [| |got n|]; try discriminate.
    + exists [MainStep; CaptureWait (Completed (inl ([], 0%Z))); SelectStop; MainStep].
      eexists. split; [cbn; lia|].
      split; [repeat (apply Forall_cons; [first [now left | now right]|]); apply Forall_nil|].
      split; [lazy beta iota zeta delta -[app]; reflexivity|].
      repeat (split; [reflexivity|]).
      eexists. cbn [history]. rewrite (app_assoc hist). f_equal.
      rewrite <- !app_assoc. reflexivity.
    + exists [MainStep; SelectStop; MainStep].
      eexists. split; [cbn; lia|].
      split; [repeat (apply Forall_cons; [first [now left | now right]|]); apply Forall_nil|].
      split; [lazy beta iota zeta delta -[app]; reflexivity|].
      repeat (split; [reflexivity|]).
      eexists. cbn [history]. rewrite (app_assoc hist). f_equal.
      rewrite <- !app_assoc. reflexivity.
  - exists []. exists (return_Close s).
    split; [cbn; lia|]. split; [constructor|].
    split.
    + cbn [snapper.run]. unfold snapper.step, Close, Close_enter.
      rewrite Hp, Hm, Hcam. reflexivity.
    + split; [exact Hp|]. split; [reflexivity|]. split; [exact Hcam|].
      split; [change (capture_alive s = false); apply alive_or_dead; auto|].
      exists []. reflexivity.
Qed.

Lemma timeouts_run (n : nat) (s : System) :
  panicked s = false -> capture s = AtWait -> cam (c s) <> None ->
  run (repeat (CaptureWait TimedOut) n) s
  = Some (mkSystem (c s) (main s) (capture s)
            (history s ++ repeat (Called (WaitForFrame (Timeout (c s)))) n)
            (fetched s) false).
Proof.
  revert s. induction n as [|n IH]; intros s Hp Hcap Hcam.
  - cbn. rewrite app_nil_r. destruct s; cbn in *; subst; reflexivity.
  - cbn [repeat snapper.run]. unfold snapper.step. rewrite Hp, Hcap.
    unfold capture_wait. destruct (cam (c s)) as [w0|] eqn:E; [|congruence].
    rewrite (on_cam_with_cam _ s w0 E). flds. rewrite Hp.
    rewrite IH by (flds; congruence). flds.
    rewrite <- app_assoc, ?Hcap. reflexivity.
Qed.

(** X12: a [Close] that waits in its loop while the capture goroutine
    waits for the driver can do nothing by itself: only the driver's
    answer lets the program move, and timeouts, however many, leave
    [Close] waiting, the stop request unseen. *)
Theorem Close_waits_for_a_frame (s : System) (k : cont) :
  reachable s -> panicked s = false ->
  main s = InCloseRange k -> capture s = AtWait ->
  (forall a s', step a s = Some s' -> exists ans, a = CaptureWait ans)
  /\ forall n,
       run (repeat (CaptureWait TimedOut) n) s
       = Some (mkSystem (c s) (InCloseRange k) AtWait
                 (history s ++ repeat (Called (WaitForFrame (Timeout (c s)))) n)
                 (fetched s) false).
Proof.
  intros Hr Hp Hm Hcap. destruct (reachable_both s Hr Hp) as [HI _].
  assert (Halive : capture_alive s = true)
    by (unfold capture_alive; now rewrite Hcap).
  destruct (inv_alive s HI Halive) as [Hcam Hopen].
  split.
  - intros a s' Hstep. unfold snapper.step, snapper.main_step in Hstep.
    rewrite Hp, Hm, Hcap in Hstep. unfold stream_open in Hopen.
    destruct a; try discriminate.
    + destruct (stream (c s)) as [ch|]; [|discriminate].
      destruct (closed ch); discriminate.
    + eauto.
  - intros n. rewrite timeouts_run by assumption. rewrite Hm, Hcap. reflexivity.
Qed.

(** *** Open *)

(** X13: [Open] rejects early.  An unknown format code is returned as an
    error before anything is touched, so that a running pipeline keeps
    running.  A format the driver does not list, or a resolution that
    matches none of its frame sizes, ends [Open] before [SetImageFormat]
    and the registry are called: the camera just opened is rolled back and
    [c.framer] is left as it was. *)
Theorem Open_rejects_early (device : string) (format : FourCC) (w h : Z)
    (pf : PixelFormat) (ans : OpenAnswers) (s : System) (cam0 : Webcam) :
  panicked s = false ->
  (forall e, main s = Idle -> FourCCToPixelFormat format = (pf, Some e) ->
     step (CallOpen device format w h ans) s = Some (return_Open (Some e) s)
     /\ c (return_Open (Some e) s) = c s
     /\ capture (return_Open (Some e) s) = capture s
     /\ history (return_Open (Some e) s)
        = history s ++ [Returned (OpenRet (Some e))])
  /\ (open_ans ans = inl cam0 -> has_format pf (formats_ans ans) = false ->
      let s1 := Open_body device format w h pf ans s in
      rolling_back (UnsupportedFormat device format) s1
      /\ framer (c s1) = framer (c s)
      /\ history s1 = history s ++ [Called (webcam_Open device);
                                     Called GetSupportedFormats])
  /\ (open_ans ans = inl cam0 -> has_format pf (formats_ans ans) = true ->
      existsb (fun value => Match value w h) (sizes_ans ans) = false ->
      let s1 := Open_body device format w h pf ans s in
      rolling_back (UnsupportedResolution device w h) s1
      /\ framer (c s1) = framer (c s)
      /\ history s1 = history s ++ [Called (webcam_Open device);
                                     Called GetSupportedFormats;
                                     Called (GetSupportedFrameSizes pf)]).
Proof.
  intros Hp. split; [|split].
  - intros e Hm Hpf. unfold snapper.step, snapper.Open. rewrite Hp, Hm, Hpf.
    repeat split.
  - intros Hopen Hfmt. cbv zeta. unfold snapper.Open_body.
    rewrite Hopen, Hfmt. cbn [negb].
    destruct s as [[cam1 tmo bufs fr st sm] m cp hist fet pan].
    cbn in Hp. subst pan. state_red.
    split; [unfold rolling_back; cbn; repeat split; congruence|].
    split; [reflexivity|]. cbn [history]. rewrite <- !app_assoc. reflexivity.
  - intros Hopen Hfmt Hsize. cbv zeta. unfold snapper.Open_body.
    rewrite Hopen, Hfmt, Hsize. cbn [negb].
    destruct s as [[cam1 tmo bufs fr st sm] m cp hist fet pan].
    cbn in Hp. subst pan. state_red.
    split; [unfold rolling_back; cbn; repeat split; congruence|].
    split; [reflexivity|]. cbn [history]. rewrite <- !app_assoc. reflexivity.
Qed.

(** X14: [Open] returns nil exactly when every stage has succeeded: the
    device opens, the driver lists the format, one of its frame sizes
    matches, [SetImageFormat], the registry and [StartStreaming] return no
    error.  It has then made its calls in this order, the buffer count
    [c.Buffers] set before the streaming starts, and it leaves the camera
    held, both channels fresh, the decoder of the registry in [c.framer]
    and the capture goroutine started. *)
Theorem Open_succeeds_iff (device : string) (format : FourCC) (w h : Z)
    (pf : PixelFormat) (ans : OpenAnswers) (s : System) :
  panicked s = false ->
  let s1 := Open_body device format w h pf ans s in
  let '(npf, nw, nh, stride, size, err) := setformat_ans ans in
  let r := GetFramer format w h (GoInt.of_uint32 stride) (GoInt.of_uint32 size) in
  let stages :=
    (exists cam0, open_ans ans = inl cam0)
    /\ has_format pf (formats_ans ans) = true
    /\ existsb (fun value => Match value w h) (sizes_ans ans) = true
    /\ err = None /\ snd r = None /\ start_ans ans = None in
  (last (history s1) (Called GetFrame) = Returned (OpenRet None) <-> stages)
  /\ (stages ->
      c s1 = mkSnapper (match open_ans ans with inl cam0 => Some cam0 | inr _ => None end)
               (Timeout (c s)) (Buffers (c s)) (fst r)
               (Some (make 1)) (Some (make 0))
      /\ main s1 = Idle /\ capture s1 = AtWait /\ fetched s1 = fetched s
      /\ history s1
         = history s
           ++ [Called (webcam_Open device); Called GetSupportedFormats;
               Called (GetSupportedFrameSizes pf);
               Called (SetImageFormat pf (GoInt.to_uint32 w) (GoInt.to_uint32 h))]
           ++ (if negb (npf =? pf) || negb (w =? GoInt.of_uint32 nw)
                  || negb (h =? GoInt.of_uint32 nh)
               then [Called (Printf_asked pf w h npf nw nh)] else [])
           ++ [Called (GetFramer_call format w h (GoInt.of_uint32 stride)
                                      (GoInt.of_uint32 size));
               Called (SetBufferCount (Buffers (c s)));
               Called (SetAutoWhiteBalance true); Called StartStreaming;
               Returned (OpenRet None)]).
Proof.
  intros Hp. cbv zeta. unfold snapper.Open_body.
  destruct s as [[cam1 tmo bufs fr st sm] m cp hist fet pan].
  cbn in Hp. subst pan.
  destruct (setformat_ans ans) as [[[[[npf nw] nh] stride] size] err].
  unfold snapper.Open_negotiated, Open_start.
  destruct (open_ans ans) as [cam0|e0];
    [destruct (has_format pf (formats_ans ans));
     [destruct (existsb (fun value => Match value w h) (sizes_ans ans));
      [destruct err as [e|];
       [|destruct (negb (npf =? pf) || negb (w =? GoInt.of_uint32 nw)
                   || negb (h =? GoInt.of_uint32 nh));
         (destruct (snd (GetFramer format w h (GoInt.of_uint32 stride)
                                   (GoInt.of_uint32 size))) as [e|];
          [|destruct (start_ans ans) as [e|]])]|]|]|];
    state_red; rewrite ?last_last.
  all: split;
    [split;
     [try discriminate; intros _; repeat split; eauto
     |intros [[cam0' H0] [H1 [H2 [H3 [H4 H5]]]]];
      first [discriminate | reflexivity]]
    |intros [[cam0' H0] [H1 [H2 [H3 [H4 H5]]]]]; try discriminate;
     repeat split; rewrite <- ?app_assoc; reflexivity].
Qed.

(** *** The public fields *)

Section Configuration.

Variables timeout buffers : Z.

Local Abbreviation configured := (configured timeout buffers).

Lemma configured_same (s s' : System) :
  Timeout (c s') = Timeout (c s) -> Buffers (c s') = Buffers (c s) ->
  history s' = history s -> configured s -> configured s'.
Proof.
  unfold snapper.configured. intros -> -> ->. auto.
Qed.

Lemma configured_emit (e : Event Frame) (s : System) :
  uses_config timeout buffers e = true -> configured s -> configured (emit e s).
Proof.
  unfold snapper.configured. intros He [Ht [Hb Hh]]. flds.
  rewrite forallb_app, Hh. cbn. rewrite He. auto.
Qed.

Lemma configured_on_cam (call : Call) (s : System) :
  uses_config (Frame := Frame) timeout buffers (Called call) = true ->
  configured s -> configured (on_cam call s).
Proof.
  intros He Hs. unfold on_cam. destruct (cam (c s)).
  - apply configured_emit; assumption.
  - revert Hs. apply configured_same; reflexivity.
Qed.

Lemma configured_WaitForFrame (s : System) :
  configured s -> configured (on_cam (WaitForFrame (Timeout (c s))) s).
Proof.
  intros Hs. apply configured_on_cam; [|exact Hs].
  destruct Hs as [Ht _]. cbn. rewrite Ht. apply Z.eqb_refl.
Qed.

Lemma configured_SetBufferCount (s : System) :
  configured s -> configured (on_cam (SetBufferCount (Buffers (c s))) s).
Proof.
  intros Hs. apply configured_on_cam; [|exact Hs].
  destruct Hs as [_ [Hb _]]. cbn. rewrite Hb. apply Z.eqb_refl.
Qed.

Lemma configured_run_rels (called : list relfn) (s : System) :
  configured s -> configured (fold_left (fun s rel => run_rel rel s) called s).
Proof.
  revert s. induction called as [|[i] called IH]; intros s Hs; [exact Hs|].
  cbn [fold_left]. apply IH. unfold run_rel.
  apply configured_on_cam; [reflexivity|exact Hs].
Qed.

(** One layer of a state at a time: a branch, a field update, an event. *)
Ltac configured_layers :=
  repeat lazymatch goal with
    | |- snapper.configured _ _ (on_cam (WaitForFrame (Timeout (c ?s))) ?s) =>
        apply configured_WaitForFrame
    | |- snapper.configured _ _ (on_cam (SetBufferCount (Buffers (c ?s))) ?s) =>
        apply configured_SetBufferCount
    | |- snapper.configured _ _ (on_cam _ _) =>
        apply configured_on_cam; [reflexivity|]
    | |- snapper.configured _ _ (emit _ _) =>
        apply configured_emit; [reflexivity|]
    | |- snapper.configured _ _ (fold_left _ _ _) => apply configured_run_rels
    | |- snapper.configured _ _ (set_cam _ ?s) =>
        apply (configured_same s); [reflexivity..|]
    | |- snapper.configured _ _ (set_stop _ ?s) =>
        apply (configured_same s); [reflexivity..|]
    | |- snapper.configured _ _ (set_stream _ ?s) =>
        apply (configured_same s); [reflexivity..|]
    | |- snapper.configured _ _ (set_framer _ ?s) =>
        apply (configured_same s); [reflexivity..|]
    | |- snapper.configured _ _ (set_main _ ?s) =>
        apply (configured_same s); [reflexivity..|]
    | |- snapper.configured _ _ (set_capture _ ?s) =>
        apply (configured_same s); [reflexivity..|]
    | |- snapper.configured _ _ (count_fetch ?s) =>
        apply (configured_same s); [reflexivity..|]
    | |- snapper.configured _ _ (panic ?s) =>
        apply (configured_same s); [reflexivity..|]
    | |- snapper.configured _ _ (if ?x then _ else _) => destruct x
    | |- snapper.configured _ _ (match ?x with _ => _ end) => destruct x
    end.

Lemma configured_close_stream (s : System) :
  configured s -> configured (close_stream s).
Proof. intros Hs. unfold close_stream. configured_layers; exact Hs. Qed.

Lemma configured_Close_finish (s : System) :
  configured s -> configured (Close_finish s).
Proof. intros Hs. unfold Close_finish. configured_layers; exact Hs. Qed.

Lemma configured_Open_deferred (ret : error) (s : System) :
  configured s -> configured (Open_deferred ret s).
Proof.
  intros Hs. unfold Open_deferred, Close_enter, return_Open. cbv zeta.
  pose proof (configured_close_stream s Hs).
  configured_layers; assumption.
Qed.

Lemma configured_Open_body (device : string) (format : FourCC) (w h : Z)
    (pf : PixelFormat) (ans : OpenAnswers) (s : System) :
  configured s -> configured (Open_body device format w h pf ans s).
Proof.
  intros Hs. unfold snapper.Open_body, snapper.Open_negotiated, Open_start.
  cbv zeta.
  destruct (setformat_ans ans) as [[[[[npf nw] nh] stride] size] err].
  repeat lazymatch goal with
    | |- snapper.configured _ _ (Open_deferred _ _) => apply configured_Open_deferred
    | |- snapper.configured _ _ (return_Open _ _) => unfold return_Open
    | |- snapper.configured _ _ (on_cam (SetBufferCount (Buffers (c ?s))) ?s) =>
        apply (configured_on_cam (SetBufferCount (Buffers (c s))));
        [destruct Hs as [_ [Hb _]]; cbn; rewrite Hb; apply Z.eqb_refl|]
    | |- _ => progress configured_layers
    end; exact Hs.
Qed.

Lemma configured_step (a : Action) (s s' : System) :
  configured s -> step a s = Some s' -> configured s'.
Proof.
  intros Hs Hstep. unfold snapper.step, snapper.main_step in Hstep.
  destruct (panicked s); [discriminate|].
  destruct a.
  - destruct (main s); try discriminate. inversion Hstep; subst s'.
    unfold snapper.Open, Close_enter, return_Open.
    destruct (FourCCToPixelFormat format) as [pf [e|]].
    + configured_layers; exact Hs.
    + destruct (cam (c s)); [configured_layers; exact Hs|].
      apply configured_Open_body; exact Hs.
  - destruct (main s); try discriminate. inversion Hstep; subst s'.
    unfold Snap. configured_layers; exact Hs.
  - destruct (main s); try discriminate. inversion Hstep; subst s'.
    unfold Close, Close_enter, return_Close. configured_layers; exact Hs.
  - destruct (main s) as [| |k|k]; try discriminate.
    + destruct (stream (c s)) as [ch|]; [|discriminate].
      destruct (closed ch); [|discriminate]. inversion Hstep; subst s'.
      unfold Snap_received, return_Snap. configured_layers; exact Hs.
    + unfold Close_send in Hstep.
      destruct (stop (c s)) as [ch|]; [|discriminate].
      destruct (closed ch); [inversion Hstep; subst s'; configured_layers; exact Hs|].
      destruct (buffered ch <? cap ch)%nat; [|discriminate].
      inversion Hstep; subst s'. configured_layers; exact Hs.
    + destruct (stream (c s)) as [ch|]; [|discriminate].
      destruct (closed ch); [|discriminate]. inversion Hstep; subst s'.
      pose proof (configured_Close_finish s Hs) as Hf.
      destruct k; unfold snapper.resume, return_Close, return_Open.
      * configured_layers; exact Hf.
      * apply configured_Open_body; exact Hf.
      * configured_layers; exact Hf.
  - destruct (capture s); try discriminate. inversion Hstep; subst s'.
    unfold capture_wait. cbv zeta.
    pose proof (configured_WaitForFrame s Hs) as Hw.
    configured_layers; first [exact Hw | exact Hs].
  - destruct (capture s); try discriminate.
    destruct (send_ready s); [|discriminate]. inversion Hstep; subst s'.
    unfold select_send, Snap_received, Close_receive, return_Snap.
    configured_layers; exact Hs.
  - destruct (capture s); try discriminate.
    destruct (stop_ready s); [|discriminate]. inversion Hstep; subst s'.
    unfold select_stop. cbv zeta.
    lazymatch goal with
    | |- snapper.configured _ _ (set_capture _ ?x) =>
        apply (configured_same x); [reflexivity..|]
    end.
    apply configured_close_stream. configured_layers; exact Hs.
  - destruct (capture s); try discriminate.
    destruct (send_ready s || stop_ready s); [discriminate|].
    inversion Hstep; subst s'.
    unfold select_default. configured_layers; exact Hs.
Qed.

(** X16: nothing in the pipeline writes the public fields [Timeout] and
    [Buffers]: after any run they hold what they held at the start, every
    [WaitForFrame] has been called with that timeout and every
    [SetBufferCount] with that count. *)
Theorem configuration_kept (acts : list Action) (s s' : System) :
  configured s -> run acts s = Some s' -> configured s'.
Proof.
  revert s. induction acts as [|a acts IH]; intros s Hs Hrun; cbn in Hrun.
  - inversion Hrun; subst s'. exact Hs.
  - destruct (step a s) as [s1|] eqn:Hstep; [|discriminate].
    apply (IH s1); [|exact Hrun]. apply (configured_step a s); assumption.
Qed.

End Configuration.

End PipelineMore.

(** ** The pipeline with the RGB3 decoder *)

(** X15: [Snap] with the decoder of rgb3.go.  When the capture goroutine
    hands over a buffer whose length is not the expected one, [Snap]
    returns the length error and the buffer goes back to the driver, once,
    before [Snap] returns; when the length is right [Snap] returns the
    frame without a release, and the frame's [Release] is the one call
    that gives this buffer back. *)
Theorem Snap_decodes_RGB3
    (F2P : snapper.FourCC -> snapper.PixelFormat * option error)
    (GF : snapper.FourCC -> Z -> Z -> Z -> Z
          -> option (snapper.Framer (rgb3.fRGB3 snapper.relfn)) * option error)
    (s : snapper.System (rgb3.fRGB3 snapper.relfn)) (got : snapper.snap)
    (n : nat) (padded : bool) (w h : Z) (ch : snapper.chan) :
  snapper.panicked s = false -> snapper.main s = snapper.InSnap ->
  snapper.capture s = snapper.AtSelect got n ->
  snapper.stream (snapper.c s) = Some ch -> snapper.closed ch = false ->
  snapper.cam (snapper.c s) <> None ->
  snapper.framer (snapper.c s) = Some (rgb3.newFramerRGB3 padded w h) ->
  let size := fst (rgb3.geometryRGB3 padded w h) in
  exists s',
    snapper.step F2P GF snapper.SelectSend s = Some s'
    /\ snapper.main s' = snapper.Idle /\ snapper.capture s' = snapper.AtWait
    /\ snapper.c s' = snapper.c s
    /\ (len (snapper.frame got) <> size ->
        snapper.history s'
        = snapper.history s
          ++ [snapper.Fate n snapper.ToSnap;
              snapper.Called (snapper.ReleaseFrame (snapper.index got));
              snapper.Returned
                (snapper.SnapRet None
                   (Some (WrongFrameLength size (len (snapper.frame got)))))])
    /\ (len (snapper.frame got) = size ->
        exists f,
          snapper.history s'
          = snapper.history s
            ++ [snapper.Fate n snapper.ToSnap;
                snapper.Returned (snapper.SnapRet (Some f) None)]
          /\ rgb3.frame f = snapper.frame got
          /\ rgb3.Bounds f = image.Rect 0 0 w h
          /\ rgb3.Release f = [snapper.ReleaseIndex (snapper.index got)]).
Proof.
  intros Hp Hm Hcap Hst Hcl Hcam Hfr size.
  destruct s as [[cam1 tmo bufs fr st sm] m cp hist fet pan].
  cbn in Hp, Hm, Hcap, Hst, Hcl, Hcam, Hfr. subst pan m cp sm fr.
  destruct cam1 as [w0|]; [|congruence].
  destruct ch as [cp0 bf cl]. cbn in Hcl. subst cl.
  unfold snapper.step, snapper.send_ready, snapper.receiver_parked,
    snapper.select_send, snapper.Snap_received.
  cbn [snapper.panicked snapper.capture snapper.main snapper.stream snapper.c
       snapper.closed orb snapper.framer snapper.set_capture snapper.emit].
  unfold rgb3.newFramerRGB3. subst size.
  destruct (rgb3.geometryRGB3 padded w h) as [size bw]. cbn [fst].
  unfold rgb3.frameRGB3.
  destruct (len (snapper.frame got) =? size) eqn:E; cbn [negb].
  - apply Z.eqb_eq in E. eexists. split; [reflexivity|].
    cbn. repeat split; try congruence.
    intros _. eexists. split; [rewrite <- app_assoc; reflexivity|].
    repeat split.
  - apply Z.eqb_neq in E. eexists. split; [reflexivity|].
    cbn. repeat split; try congruence.
    intros _. rewrite <- !app_assoc. reflexivity.
Qed.

(** ** The further properties on the example camera *)

Section MoreExamples.

Import snapper.
Local Open Scope string_scope.

Local Abbreviation F2P := example.FourCCToPixelFormat.
Local Abbreviation GF := (example.GetFramer false).
Local Abbreviation RGB24 := example.V4L2_PIX_FMT_RGB24.

Lemma reachable_after_two_drops : reachable F2P GF example.after_two_drops.
Proof.
  apply (reachable_run F2P GF example.to_two_drops init); [apply reach_fresh|].
  vm_compute. reflexivity.
Qed.

Lemma reachable_in_close_loop : reachable F2P GF example.in_close_loop.
Proof.
  apply (reachable_run F2P GF example.to_close_loop init); [apply reach_fresh|].
  vm_compute. reflexivity.
Qed.

Lemma reachable_failing : reachable F2P GF example.failing.
Proof.
  apply (reach_step F2P GF
           (CallOpen "/dev/video0" "RGB3" 640 480 example.no_formats) init);
    [apply reach_fresh|reflexivity].
Qed.


Lemma fates_in_fetch_order_witness :
  history example.after_two_drops
  = (firstn 12 (history example.after_two_drops)
     ++ Fate 0 Drop
     :: [Called (WaitForFrame 5); Called GetFrame; Called (ReleaseFrame 4)]
     ++ [Fate 1 Drop])%list
  /\ (0 < 1)%nat.
Proof.
  split; [vm_compute; reflexivity|].
  apply (fates_in_fetch_order F2P GF example.after_two_drops
           (firstn 12 (history example.after_two_drops))
           [Called (WaitForFrame 5); Called GetFrame; Called (ReleaseFrame 4)]
           [] 0%nat 1%nat Drop Drop).
  - apply reachable_after_two_drops.
  - vm_compute. reflexivity.
  - vm_compute. reflexivity.
Defined.

Lemma capture_runs_iff_open_witness :
  (capture_alive example.opened_at_select = true
   <-> cam (c example.opened_at_select) <> None)
  /\ (stream_open example.opened_at_select = true
      <-> cam (c example.opened_at_select) <> None)
  /\ (cam (c example.opened_at_select) = None ->
      forall a s', step F2P GF a example.opened_at_select = Some s' ->
                   is_capture_action a = false).
Proof.
  apply (capture_runs_iff_open F2P GF example.opened_at_select).
  - apply reachable_opened_at_select.
  - vm_compute. reflexivity.
  - left. vm_compute. reflexivity.
Defined.

Lemma application_keeps_capture_witness :
  capture (Snap example.opened_at_select) = capture example.opened_at_select.
Proof.
  apply (application_keeps_capture F2P GF CallSnap example.opened_at_select).
  - apply reachable_opened_at_select.
  - vm_compute. reflexivity.
  - reflexivity.
  - vm_compute. reflexivity.
Defined.

Lemma Close_send_proceeds_witness :
  stop (c example.failing) = Some (mkchan 1 0 false)
  /\ step F2P GF MainStep example.failing
     = Some (set_main
               (InCloseRange (ToOpenReturn (UnsupportedFormat "/dev/video0" "RGB3")))
               (set_stop (Some (mkchan 1 1 false)) example.failing)).
Proof.
  apply (Close_send_proceeds F2P GF example.failing).
  - apply reachable_failing.
  - vm_compute. reflexivity.
  - vm_compute. reflexivity.
Defined.

Lemma Close_can_complete_witness :
  exists acts s',
    (List.length acts <= 4)%nat
    /\ Forall (fun a => a = MainStep \/ is_capture_action a = true) acts
    /\ run F2P GF (CallClose :: acts) example.opened_at_select = Some s'
    /\ panicked s' = false /\ main s' = Idle /\ cam (c s') = None
    /\ capture_alive s' = false
    /\ exists h, history s'
                 = (history example.opened_at_select ++ h ++ [Returned CloseRet])%list.
Proof.
  apply (Close_can_complete F2P GF example.opened_at_select).
  - apply reachable_opened_at_select.
  - vm_compute. reflexivity.
  - vm_compute. reflexivity.
Defined.

Lemma Close_waits_for_a_frame_witness :
  (forall a s', step F2P GF a example.in_close_loop = Some s' ->
                exists ans, a = CaptureWait ans)
  /\ forall n,
       run F2P GF (repeat (CaptureWait TimedOut) n) example.in_close_loop
       = Some (mkSystem (c example.in_close_loop) (InCloseRange ToCaller) AtWait
                 (history example.in_close_loop
                  ++ repeat (Called (WaitForFrame (Timeout (c example.in_close_loop)))) n)
                 (fetched example.in_close_loop) false).
Proof.
  apply (Close_waits_for_a_frame F2P GF example.in_close_loop ToCaller).
  - apply reachable_in_close_loop.
  - vm_compute. reflexivity.
  - vm_compute. reflexivity.
  - vm_compute. reflexivity.
Defined.

Lemma Open_rejects_early_witness :
  step F2P GF (CallOpen "/dev/video0" "YUYV" 2 2 example.granting) init
  = Some (return_Open (Some (External "unknown format")) init)
  /\ rolling_back (UnsupportedFormat "/dev/video0" "RGB3")
       (Open_body GF "/dev/video0" "RGB3" 640 480 RGB24 example.no_formats init)
  /\ rolling_back (UnsupportedResolution "/dev/video0" 2 2)
       (Open_body GF "/dev/video0" "RGB3" 2 2 RGB24 example.adjusting init).
Proof.
  split; [|split].
  - apply (proj1 (Open_rejects_early F2P GF "/dev/video0" "YUYV" 2 2 0
                    example.granting init 1%nat eq_refl)
                 (External "unknown format") eq_refl eq_refl).
  - apply (proj1 (proj2 (Open_rejects_early F2P GF "/dev/video0" "RGB3" 640 480
                           RGB24 example.no_formats init 1%nat eq_refl))
                 eq_refl eq_refl).
  - apply (proj2 (proj2 (Open_rejects_early F2P GF "/dev/video0" "RGB3" 2 2
                           RGB24 example.adjusting init 1%nat eq_refl))
                 eq_refl eq_refl eq_refl).
Defined.

Lemma Open_succeeds_iff_witness :
  let s1 := Open_body GF "/dev/video0" "RGB3" 2 2 RGB24 example.granting init in
  last (history s1) (Called GetFrame) = Returned (OpenRet None)
  /\ main s1 = Idle /\ capture s1 = AtWait /\ fetched s1 = 0%nat.
Proof.
  cbv zeta.
  pose proof (Open_succeeds_iff GF "/dev/video0" "RGB3" 2 2 RGB24
                example.granting init eq_refl) as H.
  cbv zeta in H. cbn [setformat_ans example.granting] in H.
  destruct H as [Hiff Hstate].
  assert (Hstages :
    (exists cam0, open_ans example.granting = inl cam0)
    /\ has_format RGB24 (formats_ans example.granting) = true
    /\ existsb (fun value => Match value 2 2) (sizes_ans example.granting) = true
    /\ @None error = None
    /\ snd (GF "RGB3" 2 2 (GoInt.of_uint32 6) (GoInt.of_uint32 12)) = None
    /\ start_ans example.granting = None).
  { split; [exists 1%nat; reflexivity|]. repeat split. }
  split; [apply Hiff; exact Hstages|].
  destruct (Hstate Hstages) as [_ [Hm [Hcap [Hfet _]]]].
  split; [exact Hm|]. split; [exact Hcap|exact Hfet].
Defined.

Lemma Snap_decodes_RGB3_witness :
  exists s',
    step F2P GF SelectSend (example.snap_waiting example.twelve) = Some s'
    /\ main s' = Idle /\ capture s' = AtWait
    /\ c s' = c (example.snap_waiting example.twelve)
    /\ (len example.twelve <> 12 ->
        history s'
        = (history (example.snap_waiting example.twelve)
           ++ [Fate 0 ToSnap; Called (ReleaseFrame 3);
               Returned (SnapRet None
                           (Some (WrongFrameLength 12 (len example.twelve))))])%list)
    /\ (len example.twelve = 12 ->
        exists f,
          history s'
          = (history (example.snap_waiting example.twelve)
             ++ [Fate 0 ToSnap; Returned (SnapRet (Some f) None)])%list
          /\ rgb3.frame f = example.twelve
          /\ rgb3.Bounds f = image.Rect 0 0 2 2
          /\ rgb3.Release f = [ReleaseIndex 3]).
Proof.
  apply (Snap_decodes_RGB3 F2P GF (example.snap_waiting example.twelve)
           (mksnap example.twelve 3) 0%nat false 2 2 (mkchan 0 0 false)).
  - vm_compute. reflexivity.
  - vm_compute. reflexivity.
  - vm_compute. reflexivity.
  - vm_compute. reflexivity.
  - reflexivity.
  - vm_compute. discriminate.
  - reflexivity.
Defined.

Lemma configuration_kept_witness :
  configured defaultTimeout defaultBuffers example.after_two_drops.
Proof.
  apply (configuration_kept F2P GF defaultTimeout defaultBuffers
           example.to_two_drops init example.after_two_drops).
  - split; [reflexivity|]. split; reflexivity.
  - vm_compute. reflexivity.
Defined.

End MoreExamples.
